(** * conduit-mcp: the server-side message coordinator

    A shallow embedding of [src/conduit/server/coordinator.py]
    (class [MessageCoordinator]) together with the collaborators it is
    handed through its constructor, and the properties of the coordinator
    that the specification states.

    Python's coroutines are embedded in a state-and-exception monad over a
    [World] that holds every mutable object the coordinator can reach: its
    own fields, the client manager's tables, the event loop's tasks and
    futures, the transport and the standard output.  A coroutine that is
    handed to [asyncio.create_task] is stored in the world as data and is run
    by the event loop later, in one piece; a callback that the event loop is
    to call is kept in the loop's queue until the loop calls it. *)

From Stdlib Require Import ZArith.
From stdpp Require Import base option list strings gmap fin_maps.

Set Warnings "-register-all".

Local Open Scope Z_scope.
Local Open Scope string_scope.
Local Open Scope list_scope.

(** ** Values on the wire *)

(** A decoded JSON value.  An object is kept as the list of its items, in
    insertion order, like a Python [dict].  Numbers are integers: no claim
    that is settled here depends on a fractional number. *)
Inductive json : Type :=
  | JNull
  | JBool (b : bool)
  | JNum (n : Z)
  | JStr (s : string)
  | JList (items : list json)
  | JObj (items : list (string * json)).

(** [payload.get(key)] on a decoded object. *)
Fixpoint assoc_get (key : string) (items : list (string * json)) : option json :=
  match items with
  | [] => None
  | (k, v) :: rest => if String.eqb k key then Some v else assoc_get key rest
  end.

Definition json_get (key : string) (j : json) : option json :=
  match j with
  | JObj items => assoc_get key items
  | _ => None
  end.

(** A JSON-RPC request id: [str | int]. *)
Abbreviation RequestId := (string + Z)%type.

Definition id_to_json (request_id : RequestId) : json :=
  match request_id with
  | inl s => JStr s
  | inr n => JNum n
  end.

Definition json_to_id (j : json) : option RequestId :=
  match j with
  | JStr s => Some (inl s)
  | JNum n => Some (inr n)
  | _ => None
  end.

(** ** Exceptions *)

(** The exception classes the coordinator names or can meet.
    [CancelledError] derives from [BaseException] only, so [except Exception]
    lets it through; every other class here derives from [Exception]. *)
Inductive exn : Type :=
  | TimeoutError
  | CancelledError
  | RuntimeError (msg : string)
  | ConnectionError (msg : string)
  | ValueError (msg : string)
  | KeyError (key : string)
  | TypeError (msg : string)
  | OtherException (msg : string).

Definition is_Exception (e : exn) : bool :=
  match e with
  | CancelledError => false
  | _ => true
  end.

Definition is_TimeoutError (e : exn) : bool :=
  match e with
  | TimeoutError => true
  | _ => false
  end.

Definition is_CancelledError (e : exn) : bool :=
  match e with
  | CancelledError => true
  | _ => false
  end.

(** What a call comes back with: a value, or a raised exception. *)
Inductive Outcome (A : Type) : Type :=
  | Ok (a : A)
  | Raise (e : exn).
Arguments Ok {A} a.
Arguments Raise {A} e.

(** ** Protocol values (conduit.protocol.base, conduit.protocol.common) *)

(** Modelled from the spec: the typed [Request] of conduit.protocol.base,
    a value carrying [method] and method-specific [params]. *)
Record Request : Type := mkRequest {
  method : string;
  params : option json
}.

(** Modelled from the spec: the typed [Notification] of
    conduit.protocol.base, like a request but with no id. *)
Record Notification : Type := mkNotification {
  n_method : string;
  n_params : option json
}.

(** Modelled from the spec: a typed [Result]; its content is opaque to the
    coordinator, which only wraps it. *)
Record Result : Type := mkResult {
  r_value : json
}.

(** An item of [Error.data]: the coordinator stores the typed request there
    ([data={"request": request}]); handlers and the parser store JSON. *)
Inductive DataValue : Type :=
  | DJson (j : json)
  | DRequest (r : Request).

(** Modelled from the spec: [Error] of conduit.protocol.base,
    [{ code: int, message: string, data: optional structured value }]. *)
Record Error : Type := mkError {
  code : Z;
  message : string;
  data : option (list (string * DataValue))
}.

(** Modelled from the spec: the error codes of conduit.protocol.base that
    the specification gives a number for. *)
Definition METHOD_NOT_FOUND : Z := -32601.
Definition INTERNAL_ERROR : Z := -32603.

(** The protocol-version-mismatch code of conduit.protocol.base: the
    specification names it without giving its number, so it is a parameter
    of the development. *)
Class ProtocolBase : Type := {
  PROTOCOL_VERSION_MISMATCH : Z
}.

(** Modelled from the spec: [CancelledNotification(request_id, reason)] of
    conduit.protocol.common, method [notifications/cancelled] with params
    [requestId] and [reason]. *)
Definition CancelledNotification (request_id : string) (reason : string) : Notification :=
  {| n_method := "notifications/cancelled";
     n_params := Some (JObj [("requestId", JStr request_id); ("reason", JStr reason)]) |}.

(** ** JSON-RPC envelopes (conduit.protocol.jsonrpc) *)

(** The envelope classes listed in [JSONRPCMessage] of
    conduit.protocol.unions; each constructor is the class's [from_...]
    factory.  The two batch aliases are lists of these and are never built by
    the coordinator. *)
Inductive JSONRPCMessage : Type :=
  | JSONRPCRequest (request : Request) (request_id : RequestId)
  | JSONRPCNotification (notification : Notification)
  | JSONRPCResponse (result : Result) (request_id : RequestId)
  | JSONRPCError (error : Error) (request_id : RequestId).

Definition opt_item (key : string) (v : option json) : list (string * json) :=
  match v with
  | Some j => [(key, j)]
  | None => []
  end.

(** Modelled from the spec: [Request.to_protocol], the request without its
    envelope; fields with no value are omitted. *)
Definition request_to_protocol (r : Request) : json :=
  JObj (("method", JStr (method r)) :: opt_item "params" (params r)).

Definition data_value_to_json (d : DataValue) : json :=
  match d with
  | DJson j => j
  | DRequest r => request_to_protocol r
  end.

Definition error_to_json (e : Error) : json :=
  JObj ([("code", JNum (code e)); ("message", JStr (message e))]
        ++ opt_item "data"
             (option_map (fun items => JObj (map (fun kv => (fst kv, data_value_to_json (snd kv))) items))
                         (data e))).

(** Modelled from the spec: [to_wire] of the envelope classes.  Every frame
    carries ["jsonrpc": "2.0"]; requests carry [id] and [method];
    notifications carry [method] and no [id]; responses carry [id] and
    exactly one of [result] or [error]. *)
Definition to_wire (m : JSONRPCMessage) : json :=
  match m with
  | JSONRPCRequest r request_id =>
      JObj ([("jsonrpc", JStr "2.0"); ("id", id_to_json request_id);
             ("method", JStr (method r))] ++ opt_item "params" (params r))
  | JSONRPCNotification n =>
      JObj ([("jsonrpc", JStr "2.0"); ("method", JStr (n_method n))]
            ++ opt_item "params" (n_params n))
  | JSONRPCResponse r request_id =>
      JObj [("jsonrpc", JStr "2.0"); ("id", id_to_json request_id);
            ("result", r_value r)]
  | JSONRPCError e request_id =>
      JObj [("jsonrpc", JStr "2.0"); ("id", id_to_json request_id);
            ("error", error_to_json e)]
  end.

(** ** The world *)

(** The callbacks registered with the coordinator. *)
Definition RequestHandler : Type := string -> Request -> Outcome (Result + Error).
Definition NotificationHandler : Type := string -> Notification -> Outcome unit.

(** A coroutine object handed to [asyncio.create_task]. *)
Inductive Coroutine : Type :=
  | execute_request_handler_coro
      (handler : RequestHandler) (client_id : string) (request_id : RequestId)
      (request : Request)
  | notification_handler_coro
      (handler : NotificationHandler) (client_id : string)
      (notification : Notification).

(** The one done-callback the coordinator attaches to a handler task:
    [lambda t: self.client_manager.untrack_request_from_client(client_id, request_id)]. *)
Inductive DoneCallback : Type :=
  | untrack_callback (client_id : string) (request_id : RequestId).

(** The life of an [asyncio.Task]: [TaskCancelling] is a task whose
    [cancel()] was called and that has not yet taken the cancellation; the
    last three states are the ones in which [done()] is true. *)
Inductive TaskState : Type :=
  | TaskPending
  | TaskCancelling
  | TaskFinished
  | TaskFailed (e : exn)
  | TaskCancelled.

Definition task_done (s : TaskState) : bool :=
  match s with
  | TaskPending | TaskCancelling => false
  | _ => true
  end.

(** A task of the event loop (its [name], a debugging label, is left out). *)
Record Task : Type := mkTask {
  task_coro : Coroutine;
  task_state : TaskState;
  task_callbacks : list DoneCallback
}.

(** An [asyncio.Future[Result | Error]]. *)
Inductive FutureState : Type :=
  | FuturePending
  | FutureResolved (v : Result + Error)
  | FutureCancelled.

(** Modelled from the spec: [ClientState] of conduit.server.client_manager,
    with the table of requests received from the client and still executing
    and the table of requests sent to the client and awaiting a response.  A
    task and a future are referred to by their index in the event loop. *)
Record ClientState : Type := mkClientState {
  requests_from_client : gmap RequestId (Request * nat);
  requests_to_client : gmap RequestId (Request * nat)
}.

(** One call of [transport.send(client_id, payload)] and what it did:
    [None] when the frame was accepted, [Some e] when the call raised. *)
Record SendCall : Type := mkSendCall {
  sent_to : string;
  sent_payload : json;
  send_raised : option exn
}.

(** A message of the transport's stream: [ClientMessage] of
    conduit.transport.server. *)
Record ClientMessage : Type := mkClientMessage {
  cm_client_id : string;
  cm_payload : json
}.

(** The lines the coordinator prints, one constructor for each [print]
    call, carrying the values its f-string interpolates. *)
Inductive LogLine : Type :=
  | Error_handling_message_from (client_id : string) (e : exn)
  | Transport_error (e : exn)
  | Unknown_message_type_from (client_id : string) (payload : json)
  | Unknown_notification_from (method : json) (client_id : string)
  | No_pending_request_for_client (request_id : RequestId) (client_id : string)
  | Error_sending_cancellation_to (client_id : string) (e : exn).

(** A callback that the event loop has been asked to call
    ([loop.call_soon]) and has not called yet.  The coordinator gives the
    loop two kinds: [self._on_message_loop_done], which [start] attaches to
    the message loop task, and the done-callback of a handler task.  asyncio
    schedules the done-callbacks of a task when the task becomes done and
    calls them in a later iteration of the loop. *)
Inductive Handle : Type :=
  | message_loop_done
  | task_done_callback (cb : DoneCallback).

Record World : Type := mkWorld {
  (* MessageCoordinator *)
  _message_loop_task : option TaskState;
  _request_handlers : gmap string RequestHandler;
  _notification_handlers : gmap string NotificationHandler;
  (* ClientManager *)
  clients : gmap string ClientState;
  (* event loop *)
  tasks : list Task;
  futures : list FutureState;
  ready : list Handle;
  (* ServerTransport: the calls of send so far, and what the next calls
     will do (an exhausted script accepts every frame) *)
  send_calls : list SendCall;
  send_script : list (option exn);
  (* standard output *)
  stdout : list LogLine
}.

Definition set_message_loop_task (v : option TaskState) (w : World) : World :=
  mkWorld v (_request_handlers w) (_notification_handlers w) (clients w)
          (tasks w) (futures w) (ready w) (send_calls w) (send_script w) (stdout w).
Definition set_request_handlers (v : gmap string RequestHandler) (w : World) : World :=
  mkWorld (_message_loop_task w) v (_notification_handlers w) (clients w)
          (tasks w) (futures w) (ready w) (send_calls w) (send_script w) (stdout w).
Definition set_notification_handlers (v : gmap string NotificationHandler) (w : World) : World :=
  mkWorld (_message_loop_task w) (_request_handlers w) v (clients w)
          (tasks w) (futures w) (ready w) (send_calls w) (send_script w) (stdout w).
Definition set_clients (v : gmap string ClientState) (w : World) : World :=
  mkWorld (_message_loop_task w) (_request_handlers w) (_notification_handlers w) v
          (tasks w) (futures w) (ready w) (send_calls w) (send_script w) (stdout w).
Definition set_tasks (v : list Task) (w : World) : World :=
  mkWorld (_message_loop_task w) (_request_handlers w) (_notification_handlers w) (clients w)
          v (futures w) (ready w) (send_calls w) (send_script w) (stdout w).
Definition set_futures (v : list FutureState) (w : World) : World :=
  mkWorld (_message_loop_task w) (_request_handlers w) (_notification_handlers w) (clients w)
          (tasks w) v (ready w) (send_calls w) (send_script w) (stdout w).
Definition set_ready (v : list Handle) (w : World) : World :=
  mkWorld (_message_loop_task w) (_request_handlers w) (_notification_handlers w) (clients w)
          (tasks w) (futures w) v (send_calls w) (send_script w) (stdout w).
Definition set_transport (calls : list SendCall) (script : list (option exn)) (w : World) : World :=
  mkWorld (_message_loop_task w) (_request_handlers w) (_notification_handlers w) (clients w)
          (tasks w) (futures w) (ready w) calls script (stdout w).
Definition set_stdout (v : list LogLine) (w : World) : World :=
  mkWorld (_message_loop_task w) (_request_handlers w) (_notification_handlers w) (clients w)
          (tasks w) (futures w) (ready w) (send_calls w) (send_script w) v.

(** ** Coroutines as a state-and-exception monad *)

Definition M (A : Type) : Type := World -> Outcome A * World.

Definition ret {A} (a : A) : M A := fun w => (Ok a, w).
Definition raise {A} (e : exn) : M A := fun w => (Raise e, w).
Definition bind {A B} (c : M A) (k : A -> M B) : M B :=
  fun w => match c w with
           | (Ok a, w') => k a w'
           | (Raise e, w') => (Raise e, w')
           end.

Declare Scope coro_scope.
Delimit Scope coro_scope with coro.
Notation "x <- c1 ;; c2" := (bind c1 (fun x => c2))
  (at level 100, c1 at next level, right associativity) : coro_scope.
Notation "c1 ;; c2" := (bind c1 (fun _ => c2))
  (at level 100, right associativity) : coro_scope.
Local Open Scope coro_scope.

Definition get_world : M World := fun w => (Ok w, w).
Definition modify (f : World -> World) : M unit := fun w => (Ok tt, f w).

(** [try: body except <class>: handler]: [catches e] says whether the
    [except] clause matches the raised exception. *)
Definition try_except {A} (body : M A) (catches : exn -> bool) (handler : exn -> M A) : M A :=
  fun w => match body w with
           | (Ok a, w') => (Ok a, w')
           | (Raise e, w') => if catches e then handler e w' else (Raise e, w')
           end.

(** [try: body finally: cleanup]: the cleanup runs on every exit; if it
    raises, its exception replaces the outcome of the body. *)
Definition try_finally {A} (body : M A) (cleanup : M unit) : M A :=
  fun w => match body w with
           | (r, w') => match cleanup w' with
                        | (Ok _, w'') => (r, w'')
                        | (Raise e, w'') => (Raise e, w'')
                        end
           end.

(** Running a coroutine as the body of a task: how it ends is kept by the
    task and raised nowhere. *)
Definition outcome_of {A} (c : M A) : M (Outcome A) :=
  fun w => let (r, w') := c w in (Ok r, w').

(** [print(line)]. *)
Definition print (line : LogLine) : M unit :=
  modify (fun w => set_stdout (stdout w ++ [line]) w).

(** [await self.transport.send(client_id, payload)]: the call is recorded
    with what the transport did. *)
Definition transport_send (client_id : string) (payload : json) : M unit :=
  fun w =>
    let r := match send_script w with
             | [] => None
             | o :: _ => o
             end in
    let w' := set_transport (send_calls w ++ [mkSendCall client_id payload r])
                            (tail (send_script w)) w in
    match r with
    | None => (Ok tt, w')
    | Some e => (Raise e, w')
    end.

(** ** The event loop *)

(** [asyncio.create_task(coro)]: the task is scheduled, not started. *)
Definition create_task (coro : Coroutine) : M nat :=
  fun w => (Ok (length (tasks w)),
            set_tasks (tasks w ++ [mkTask coro TaskPending []]) w).

(** [task.add_done_callback(cb)]. *)
Definition add_done_callback (task : nat) (cb : DoneCallback) : M unit :=
  modify (fun w =>
    set_tasks (alter (fun t => mkTask (task_coro t) (task_state t)
                                      (task_callbacks t ++ [cb])) task (tasks w)) w).

(** [task.cancel()] on the list of tasks: a task that is done is left alone
    and the call returns [False]; otherwise cancellation is requested. *)
Definition cancel_in (task : nat) (ts : list Task) : list Task :=
  alter (fun t => if task_done (task_state t) then t
                  else mkTask (task_coro t) TaskCancelling (task_callbacks t)) task ts.

Definition task_cancel (task : nat) : M bool :=
  fun w => match tasks w !! task with
           | Some t => (Ok (negb (task_done (task_state t))),
                        set_tasks (cancel_in task (tasks w)) w)
           | None => (Ok false, w)
           end.

(** [loop.call_soon(callback)]: the callback joins the queue of the event
    loop, behind the ones that are ready already. *)
Definition call_soon (handle : Handle) : M unit :=
  modify (fun w => set_ready (ready w ++ [handle]) w).

(** The event loop calling a callback of its queue: an exception that the
    callback raises is handed to the loop's exception handler and goes no
    further (asyncio logs it; nothing is written to the standard output). *)
Definition call_ready (callback : M unit) : M unit :=
  try_except callback (fun _ => true) (fun _ => ret tt).

(** [asyncio.Future()]. *)
Definition new_future : M nat :=
  fun w => (Ok (length (futures w)), set_futures (futures w ++ [FuturePending]) w).

(** [future.set_result(v)] guarded by [not future.done()]. *)
Definition resolve_in (future : nat) (v : Result + Error) (fs : list FutureState)
  : list FutureState :=
  alter (fun f => match f with FuturePending => FutureResolved v | _ => f end) future fs.

(** ** The collaborators handed to the coordinator *)

(** The interface of [ClientManager] (conduit.server.client_manager) that
    the coordinator calls. *)
Class ClientManager : Type := {
  get_client : string -> M (option ClientState);
  register_client : string -> M unit;
  track_request_from_client : string -> RequestId -> Request -> nat -> M unit;
  untrack_request_from_client : string -> RequestId -> M (option (Request * nat));
  track_request_to_client : string -> RequestId -> Request -> nat -> M unit;
  untrack_request_to_client : string -> RequestId -> M (option (Request * nat));
  get_request_to_client : string -> RequestId -> M (option (Request * nat));
  resolve_request_to_client : string -> RequestId -> Result + Error -> M unit;
  cleanup_client : string -> M unit;
  cleanup_all_clients : M unit
}.

(** The interface of [MessageParser] (conduit.shared.message_parser) that
    the coordinator calls.  The registry of typed constructors behind it is
    not part of the coordinator, so the parser is a parameter. *)
Class MessageParser : Type := {
  is_valid_request : json -> bool;
  is_valid_notification : json -> bool;
  is_valid_response : json -> bool;
  parse_request : json -> Request + Error;
  parse_notification : json -> option Notification;
  parse_response : json -> Request -> Result + Error
}.

(** *** The client manager of the specification *)

Module SpecManager.

Definition empty_client : ClientState := mkClientState ∅ ∅.

Definition with_inbound (t : gmap RequestId (Request * nat)) (c : ClientState) : ClientState :=
  mkClientState t (requests_to_client c).
Definition with_outbound (t : gmap RequestId (Request * nat)) (c : ClientState) : ClientState :=
  mkClientState (requests_from_client c) t.

(** Modelled from the spec: [get_client(client_id)] of ClientManager. *)
Definition get_client (client_id : string) : M (option ClientState) :=
  fun w => (Ok (clients w !! client_id), w).

(** Modelled from the spec: [register_client(client_id)] of ClientManager,
    a client with both tables empty. *)
Definition register_client (client_id : string) : M unit :=
  modify (fun w => set_clients (<[client_id := empty_client]> (clients w)) w).

(** Modelled from the spec: [track_request_from_client] of ClientManager,
    insert into the client's inbound table; fail if an entry with that id
    already exists.  (A client that is not registered has no table to
    insert into.) *)
Definition track_request_from_client
    (client_id : string) (request_id : RequestId) (request : Request) (task : nat)
  : M unit :=
  fun w =>
    match clients w !! client_id with
    | None => (Raise (ValueError "client not registered"), w)
    | Some c =>
        match requests_from_client c !! request_id with
        | Some _ => (Raise (ValueError "duplicate request id"), w)
        | None =>
            (Ok tt,
             set_clients
               (<[client_id :=
                    with_inbound (<[request_id := (request, task)]> (requests_from_client c)) c]>
                  (clients w)) w)
        end
    end.

(** Modelled from the spec: [untrack_request_from_client] of
    ClientManager, atomic remove-and-return. *)
Definition untrack_request_from_client (client_id : string) (request_id : RequestId)
  : M (option (Request * nat)) :=
  fun w =>
    match clients w !! client_id with
    | None => (Ok None, w)
    | Some c =>
        (Ok (requests_from_client c !! request_id),
         set_clients
           (<[client_id := with_inbound (delete request_id (requests_from_client c)) c]>
              (clients w)) w)
    end.

(** Modelled from the spec: [track_request_to_client] of ClientManager. *)
Definition track_request_to_client
    (client_id : string) (request_id : RequestId) (request : Request) (future : nat)
  : M unit :=
  fun w =>
    match clients w !! client_id with
    | None => (Raise (ValueError "client not registered"), w)
    | Some c =>
        (Ok tt,
         set_clients
           (<[client_id :=
                with_outbound (<[request_id := (request, future)]> (requests_to_client c)) c]>
              (clients w)) w)
    end.

(** Modelled from the spec: [untrack_request_to_client] of ClientManager. *)
Definition untrack_request_to_client (client_id : string) (request_id : RequestId)
  : M (option (Request * nat)) :=
  fun w =>
    match clients w !! client_id with
    | None => (Ok None, w)
    | Some c =>
        (Ok (requests_to_client c !! request_id),
         set_clients
           (<[client_id := with_outbound (delete request_id (requests_to_client c)) c]>
              (clients w)) w)
    end.

(** Modelled from the spec: [get_request_to_client] of ClientManager. *)
Definition get_request_to_client (client_id : string) (request_id : RequestId)
  : M (option (Request * nat)) :=
  fun w => (Ok (c ← clients w !! client_id; requests_to_client c !! request_id), w).

(** Modelled from the spec: [resolve_request_to_client] of ClientManager,
    remove the entry and resolve the completion handle exactly once; a
    second resolution is a silent no-op. *)
Definition resolve_request_to_client
    (client_id : string) (request_id : RequestId) (result_or_error : Result + Error)
  : M unit :=
  fun w =>
    match clients w !! client_id with
    | None => (Ok tt, w)
    | Some c =>
        match requests_to_client c !! request_id with
        | None => (Ok tt, w)
        | Some (_, future) =>
            (Ok tt,
             set_futures (resolve_in future result_or_error (futures w))
               (set_clients
                  (<[client_id := with_outbound (delete request_id (requests_to_client c)) c]>
                     (clients w)) w))
        end
    end.

Section Teardown.

(** The cancellation error that a teardown resolves the outstanding
    completion handles with; the specification does not give its
    content. *)
Variable cancellation_error : Error.

Definition cancel_all (entries : list (RequestId * (Request * nat))) (ts : list Task)
  : list Task :=
  foldr (fun entry acc => cancel_in (snd (snd entry)) acc) ts entries.

Definition resolve_all (entries : list (RequestId * (Request * nat)))
    (fs : list FutureState) : list FutureState :=
  foldr (fun entry acc => resolve_in (snd (snd entry)) (inr cancellation_error) acc)
        fs entries.

Definition teardown (client_id : string) (w : World) : World :=
  match clients w !! client_id with
  | None => w
  | Some c =>
      set_clients (delete client_id (clients w))
        (set_futures (resolve_all (map_to_list (requests_to_client c)) (futures w))
           (set_tasks (cancel_all (map_to_list (requests_from_client c)) (tasks w)) w))
  end.

(** Modelled from the spec: [cleanup_client(client_id)] of ClientManager,
    cancel every inbound task, resolve every outbound completion handle
    with a cancellation error, drop the client. *)
Definition cleanup_client (client_id : string) : M unit :=
  modify (teardown client_id).

(** Modelled from the spec: [cleanup_all_clients()] of ClientManager,
    fold over all clients. *)
Definition cleanup_all_clients : M unit :=
  modify (fun w => foldr teardown w (map fst (map_to_list (clients w)))).

Definition manager : ClientManager :=
  Build_ClientManager
    get_client register_client
    track_request_from_client untrack_request_from_client
    track_request_to_client untrack_request_to_client
    get_request_to_client resolve_request_to_client
    cleanup_client cleanup_all_clients.

End Teardown.

End SpecManager.

(** ** The coordinator *)

(** The items of [self.transport.client_messages()]: a message, or the
    exception the stream raises instead of one.  A list of items that ends
    without [StreamRaises] is a stream that is exhausted. *)
Inductive StreamItem : Type :=
  | Yield (client_message : ClientMessage)
  | StreamRaises (e : exn).

(** How [await asyncio.wait_for(future, timeout)] ends when the future is
    still pending: the timer fires, or the calling task is cancelled. *)
Inductive Wakeup : Type :=
  | TimerFired
  | CallerCancelled.

(** [await] of a callback whose outcome is known. *)
Definition await_outcome {A} (o : Outcome A) : M A := fun w => (o, w).

(** [payload[key]]. *)
Definition subscript (payload : json) (key : string) : M json :=
  match json_get key payload with
  | Some v => ret v
  | None => raise (KeyError key)
  end.

(** [payload["id"]] as a key of the request tables.  The code annotates
    the id as [str | int] and the tables are keyed by such ids; a frame
    whose id is of another JSON type is not followed further here: it ends
    the handling of the message with a type error. *)
Definition payload_id (payload : json) : M RequestId :=
  v <- subscript payload "id" ;;
  match json_to_id v with
  | Some request_id => ret request_id
  | None => raise (TypeError "request id")
  end.

Section MessageCoordinator.

Context {protocol_base : ProtocolBase}.
Context {parser : MessageParser}.
Context {client_manager : ClientManager}.

(** *** Lifecycle *)

Definition running (w : World) : bool :=
  match _message_loop_task w with
  | Some s => negb (task_done s)
  | None => false
  end.

Definition self_running : M bool := fun w => (Ok (running w), w).

(** [start]: the task that is created is kept with its state; the
    done-callback that [start] attaches to it, [_on_message_loop_done], is
    the one that [message_loop_task_done] below schedules when the task
    ends. *)
Definition start : M unit :=
  r <- self_running ;;
  if r then ret tt
  else modify (set_message_loop_task (Some TaskPending)).

Definition _on_message_loop_done : M unit :=
  modify (set_message_loop_task None) ;;
  cleanup_all_clients.

(** The done-callback of a handler task, called by the event loop. *)
Definition run_done_callback (cb : DoneCallback) : M unit :=
  match cb with
  | untrack_callback client_id request_id =>
      call_ready (untrack_request_from_client client_id request_id ;; ret tt)
  end.

Fixpoint run_done_callbacks (cbs : list DoneCallback) : M unit :=
  match cbs with
  | [] => ret tt
  | cb :: rest => run_done_callback cb ;; run_done_callbacks rest
  end.

(** The event loop calls a callback of its queue. *)
Definition run_handle (handle : Handle) : M unit :=
  match handle with
  | message_loop_done => call_ready _on_message_loop_done
  | task_done_callback cb => run_done_callback cb
  end.

Fixpoint run_handles (handles : list Handle) : M unit :=
  match handles with
  | [] => ret tt
  | handle :: rest => run_handle handle ;; run_handles rest
  end.

(** The event loop calls the callback at the head of its queue. *)
Definition run_next_ready : M unit :=
  w <- get_world ;;
  match ready w with
  | [] => ret tt
  | handle :: rest => modify (set_ready rest) ;; run_handle handle
  end.

(** The event loop calls every callback that is ready, in the order in
    which they were scheduled. *)
Definition run_ready : M unit :=
  w <- get_world ;;
  modify (set_ready []) ;;
  run_handles (ready w).

(** The message loop task becomes done in state [final]: the callback that
    [start] attached to it is scheduled.  It is called later: until then the
    task is done, so [running] is false, and the cleanup has not run. *)
Definition message_loop_task_done (final : TaskState) : M unit :=
  modify (set_message_loop_task (Some final)) ;;
  call_soon message_loop_done.

(** [await self._message_loop_task] in [stop], just after [cancel()]: the
    loop takes the cancellation (neither [except Exception] of
    [_message_loop] catches it) and the task is done.  The coroutine that
    awaits the task is woken by a callback of the task as well, scheduled
    behind the one that [start] attached: when the await raises
    [CancelledError], the callbacks that were ready, and
    [_on_message_loop_done] last, have been called.  (The handler tasks that
    get their turn during the wait are not interleaved here: they are the
    events before and after [stop].) *)
Definition await_message_loop_task : M unit :=
  message_loop_task_done TaskCancelled ;;
  run_ready ;;
  raise CancelledError.

Definition stop : M unit :=
  r <- self_running ;;
  if negb r then ret tt
  else
    w <- get_world ;;
    match _message_loop_task w with
    | Some _ =>
        modify (set_message_loop_task (Some TaskCancelling)) ;;
        try_except await_message_loop_task is_CancelledError (fun _ => ret tt) ;;
        modify (set_message_loop_task None)
    | None => ret tt
    end ;;
    cleanup_all_clients.

(** *** Helpers *)

Definition _ensure_client_registered (client_id : string) : M unit :=
  c <- get_client client_id ;;
  match c with
  | Some _ => ret tt
  | None => register_client client_id
  end.

Definition _should_disconnect_for_error (error : Error) : bool :=
  Z.eqb (code error) PROTOCOL_VERSION_MISMATCH.

Definition _send_error (client_id : string) (request_id : RequestId) (error : Error)
  : M unit :=
  let response := JSONRPCError error request_id in
  transport_send client_id (to_wire response).

(** *** Handle requests *)

Definition _execute_request_handler
    (handler : RequestHandler) (client_id : string) (request_id : RequestId)
    (request : Request) : M unit :=
  try_except
    (result_or_error <- await_outcome (handler client_id request) ;;
     let response :=
       match result_or_error with
       | inr error => JSONRPCError error request_id
       | inl result => JSONRPCResponse result request_id
       end in
     transport_send client_id (to_wire response) ;;
     match result_or_error with
     | inr error =>
         if _should_disconnect_for_error error then cleanup_client client_id
         else ret tt
     | inl _ => ret tt
     end)
    is_Exception
    (fun _ =>
       let error :=
         {| code := INTERNAL_ERROR;
            message := "Problem handling request";
            data := Some [("request", DRequest request)] |} in
       _send_error client_id request_id error).

Definition _route_request (client_id : string) (request_id : RequestId)
    (request : Request) : M unit :=
  w <- get_world ;;
  match _request_handlers w !! method request with
  | None =>
      let error :=
        {| code := METHOD_NOT_FOUND;
           message := "No handler for method: " +:+ method request;
           data := None |} in
      _send_error client_id request_id error
  | Some handler =>
      task <- create_task
                (execute_request_handler_coro handler client_id request_id request) ;;
      track_request_from_client client_id request_id request task ;;
      add_done_callback task (untrack_callback client_id request_id)
  end.

Definition _handle_request (client_id : string) (payload : json) : M unit :=
  request_id <- payload_id payload ;;
  _ensure_client_registered client_id ;;
  match parse_request payload with
  | inr error => _send_error client_id request_id error
  | inl request => _route_request client_id request_id request
  end.

(** *** Handle notifications *)

Definition _handle_notification (client_id : string) (payload : json) : M unit :=
  method <- subscript payload "method" ;;
  match parse_notification payload with
  | None => ret tt
  | Some notification =>
      w <- get_world ;;
      match match method with
            | JStr m => _notification_handlers w !! m
            | _ => None
            end with
      | None => print (Unknown_notification_from method client_id)
      | Some handler =>
          create_task (notification_handler_coro handler client_id notification) ;;
          ret tt
      end
  end.

(** *** Handle responses *)

Definition _handle_response (client_id : string) (payload : json) : M unit :=
  request_id <- payload_id payload ;;
  request_future_tuple <- get_request_to_client client_id request_id ;;
  match request_future_tuple with
  | None => print (No_pending_request_for_client request_id client_id)
  | Some (original_request, future) =>
      let result_or_error := parse_response payload original_request in
      resolve_request_to_client client_id request_id result_or_error
  end.

(** *** Route messages *)

Definition _route_client_message (client_message : ClientMessage) : M unit :=
  let payload := cm_payload client_message in
  let client_id := cm_client_id client_message in
  if is_valid_request payload then _handle_request client_id payload
  else if is_valid_notification payload then _handle_notification client_id payload
  else if is_valid_response payload then _handle_response client_id payload
  else print (Unknown_message_type_from client_id payload).

(** *** Message loop *)

(** The body of [async for client_message in ...], with its
    [try ... except Exception ... continue]. *)
Definition _message_loop_iteration (client_message : ClientMessage) : M unit :=
  try_except (_route_client_message client_message) is_Exception
    (fun e => print (Error_handling_message_from (cm_client_id client_message) e)).

Fixpoint _message_loop_over (items : list StreamItem) : M unit :=
  match items with
  | [] => ret tt
  | Yield client_message :: rest =>
      _message_loop_iteration client_message ;; _message_loop_over rest
  | StreamRaises e :: _ => raise e
  end.

Definition _message_loop (items : list StreamItem) : M unit :=
  try_except (_message_loop_over items) is_Exception
    (fun e => print (Transport_error e)).

(** *** Cancel requests from client *)

Definition cancel_request_from_client (client_id : string) (request_id : RequestId)
  : M bool :=
  result <- untrack_request_from_client client_id request_id ;;
  match result with
  | None => ret false
  | Some (request, task) => task_cancel task
  end.

(** *** Send notifications *)

Definition send_notification (client_id : string) (notification : Notification)
  : M unit :=
  r <- self_running ;;
  if negb r then raise (RuntimeError "Cannot send notification: coordinator is not running")
  else
    let jsonrpc_notification := JSONRPCNotification notification in
    transport_send client_id (to_wire jsonrpc_notification).

(** *** Send requests *)

Definition _handle_request_timeout (client_id : string) (request_id : string) : M unit :=
  try_except
    (let cancelled_notification :=
       CancelledNotification request_id "Request timed out" in
     send_notification client_id cancelled_notification)
    is_Exception
    (fun e => print (Error_sending_cancellation_to client_id e)).

(** [asyncio.wait_for(future, timeout)] at the moment the coroutine is
    resumed: a future that was resolved gives its value; on a pending one
    the timer cancels the future and [TimeoutError] is raised, or the
    caller's cancellation is. *)
Definition wait_for (future : nat) (wake : Wakeup) : M (Result + Error) :=
  fun w =>
    match futures w !! future with
    | Some (FutureResolved v) => (Ok v, w)
    | Some FutureCancelled => (Raise CancelledError, w)
    | _ =>
        match wake with
        | TimerFired =>
            (Raise TimeoutError,
             set_futures (alter (fun _ => FutureCancelled) future (futures w)) w)
        | CallerCancelled =>
            (Raise CancelledError,
             set_futures (alter (fun _ => FutureCancelled) future (futures w)) w)
        end
    end.

(** [send_request(client_id, request, timeout)].  [uuid] is what
    [str(uuid.uuid4())] gives in this call; [suspended] is what the other
    tasks do to the world while the coroutine waits on the future, and
    [wake] is what ends a wait that no response ends. *)
Definition send_request (client_id : string) (request : Request) (uuid : string)
    (suspended : World -> World) (wake : Wakeup) : M (Result + Error) :=
  r <- self_running ;;
  if negb r then raise (RuntimeError "Cannot send request: coordinator is not running")
  else
    let request_id := uuid in
    let jsonrpc_request := JSONRPCRequest request (inl request_id) in
    future <- new_future ;;
    _ensure_client_registered client_id ;;
    track_request_to_client client_id (inl request_id) request future ;;
    try_finally
      (try_except
         (transport_send client_id (to_wire jsonrpc_request) ;;
          modify suspended ;;
          wait_for future wake)
         is_TimeoutError
         (fun e => _handle_request_timeout client_id request_id ;; raise e))
      (untrack_request_to_client client_id (inl request_id) ;; ret tt).

(** The part of [send_request] that runs until the coroutine is suspended
    on the future, which it returns.  When the transport's [send] raises,
    there is no wait: the [except] and [finally] clauses run at once. *)
Definition send_request_until_wait (client_id : string) (request : Request)
    (uuid : string) : M nat :=
  r <- self_running ;;
  if negb r then raise (RuntimeError "Cannot send request: coordinator is not running")
  else
    let request_id := uuid in
    let jsonrpc_request := JSONRPCRequest request (inl request_id) in
    future <- new_future ;;
    _ensure_client_registered client_id ;;
    track_request_to_client client_id (inl request_id) request future ;;
    fun w =>
      match transport_send client_id (to_wire jsonrpc_request) w with
      | (Ok _, w') => (Ok future, w')
      | (Raise e, w') =>
          try_finally
            (try_except (raise e) is_TimeoutError
               (fun e => _handle_request_timeout client_id request_id ;; raise e))
            (untrack_request_to_client client_id (inl request_id) ;; ret tt) w'
      end.

(** The part of [send_request] that runs once the coroutine is resumed
    from its wait: the end of the [try], its [except] and its [finally]. *)
Definition send_request_resumed (client_id : string) (request_id : string)
    (future : nat) (wake : Wakeup) : M (Result + Error) :=
  try_finally
    (try_except
       (wait_for future wake)
       is_TimeoutError
       (fun e => _handle_request_timeout client_id request_id ;; raise e))
    (untrack_request_to_client client_id (inl request_id) ;; ret tt).

(** *** Register handlers *)

Definition register_request_handler (method : string) (handler : RequestHandler)
  : M unit :=
  modify (fun w => set_request_handlers (<[method := handler]> (_request_handlers w)) w).

Definition register_notification_handler (method : string)
    (handler : NotificationHandler) : M unit :=
  modify (fun w =>
    set_notification_handlers (<[method := handler]> (_notification_handlers w)) w).

(** *** The event loop running the coordinator's tasks *)

Definition run_coroutine (coro : Coroutine) : M unit :=
  match coro with
  | execute_request_handler_coro handler client_id request_id request =>
      _execute_request_handler handler client_id request_id request
  | notification_handler_coro handler client_id notification =>
      await_outcome (handler client_id notification)
  end.

Definition set_task_state (task : nat) (s : TaskState) (w : World) : World :=
  set_tasks (alter (fun t => mkTask (task_coro t) s (task_callbacks t)) task (tasks w)) w.

(** The task is done in state [s]: its done-callbacks are scheduled, in the
    order in which they were attached.  (The record of the task keeps the
    callbacks that were attached to it.) *)
Definition task_ends (task : nat) (s : TaskState) : M unit :=
  modify (set_task_state task s) ;;
  w <- get_world ;;
  match tasks w !! task with
  | Some t =>
      modify (fun w => set_ready (ready w ++ map task_done_callback (task_callbacks t)) w)
  | None => ret tt
  end.

(** The task is done in state [s] and its done-callbacks are called
    straight away: [task_ends] followed by the calls of the loop, with
    nothing in between. *)
Definition task_finishes (task : nat) (s : TaskState) : M unit :=
  modify (set_task_state task s) ;;
  w <- get_world ;;
  match tasks w !! task with
  | Some t => run_done_callbacks (task_callbacks t)
  | None => ret tt
  end.

(** The event loop gives the task its turn; [finish] is what happens when the
    task is done.  A pending task runs its coroutine to the end: an
    exception that leaves the coroutine stays in the task, and the
    coordinator, which awaits none of its handler tasks, prints nothing
    about it; a task whose cancellation was requested before it ran, or
    while it ran, ends cancelled.  A task that is done has no turn. *)
Definition task_turn (finish : nat -> TaskState -> M unit) (task : nat) : M unit :=
  w <- get_world ;;
  match tasks w !! task with
  | None => ret tt
  | Some t =>
      match task_state t with
      | TaskPending =>
          r <- outcome_of (run_coroutine (task_coro t)) ;;
          match r with
          | Ok _ =>
              w' <- get_world ;;
              match task_state <$> tasks w' !! task with
              | Some TaskCancelling => finish task TaskCancelled
              | _ => finish task TaskFinished
              end
          | Raise e =>
              if is_CancelledError e then finish task TaskCancelled
              else finish task (TaskFailed e)
          end
      | TaskCancelling => finish task TaskCancelled
      | _ => ret tt
      end
  end.

(** The turn of a task as the event loop takes it: the done-callbacks of a
    task that ends are scheduled, and called in a later step of the loop. *)
Definition task_step (task : nat) : M unit := task_turn task_ends task.

(** The turn of a task together with the calls of its done-callbacks: the
    two steps of the loop taken one after the other. *)
Definition run_task (task : nat) : M unit := task_turn task_finishes task.

(** The message loop task leaves the [async for]: the stream is exhausted
    ([None]) or raises.  The task is done; its done-callback is scheduled. *)
Definition message_loop_ends (cause : option exn) : M unit :=
  r <- outcome_of
         (_message_loop (match cause with None => [] | Some e => [StreamRaises e] end)) ;;
  match r with
  | Ok _ => message_loop_task_done TaskFinished
  | Raise e =>
      message_loop_task_done (if is_CancelledError e then TaskCancelled else TaskFailed e)
  end.

(** *** What can happen to a coordinator *)

Inductive Event : Type :=
  | ev_start
  | ev_stop
  | ev_register_request_handler (method : string) (handler : RequestHandler)
  | ev_register_notification_handler (method : string) (handler : NotificationHandler)
  | ev_client_message (client_message : ClientMessage)
  | ev_stream_ends (cause : option exn)
  | ev_task_step (task : nat)
  | ev_run_next_ready
  | ev_send_request (client_id : string) (request : Request) (uuid : string)
  | ev_send_request_resumed (client_id : string) (request_id : string) (future : nat)
                            (wake : Wakeup)
  | ev_send_notification (client_id : string) (notification : Notification)
  | ev_cancel_request_from_client (client_id : string) (request_id : RequestId).

(** The world after a call, whatever it returned or raised. *)
Definition after {A} (c : M A) (w : World) : World := snd (c w).

(** One event: a call of the coordinator's interface, or a step of the
    event loop.  The message loop takes a message, or sees its stream end,
    as long as the coordinator is [running]: a loop task that
    [_on_message_loop_done] has cut from [_message_loop_task], as the
    callback of an earlier loop task does after a restart, is not followed
    as a loop of its own. *)
Definition step (ev : Event) (w : World) : World :=
  match ev with
  | ev_start => after start w
  | ev_stop => after stop w
  | ev_register_request_handler m h => after (register_request_handler m h) w
  | ev_register_notification_handler m h => after (register_notification_handler m h) w
  | ev_client_message client_message =>
      if running w then after (_message_loop_iteration client_message) w else w
  | ev_stream_ends cause =>
      if running w then after (message_loop_ends cause) w else w
  | ev_task_step task => after (task_step task) w
  | ev_run_next_ready => after run_next_ready w
  | ev_send_request client_id request uuid =>
      after (send_request_until_wait client_id request uuid) w
  | ev_send_request_resumed client_id request_id future wake =>
      after (send_request_resumed client_id request_id future wake) w
  | ev_send_notification client_id notification =>
      after (send_notification client_id notification) w
  | ev_cancel_request_from_client client_id request_id =>
      after (cancel_request_from_client client_id request_id) w
  end.

Definition run (evs : list Event) (w : World) : World :=
  foldl (fun w ev => step ev w) w evs.

End MessageCoordinator.

(** A coordinator just constructed over a transport with the given script. *)
Definition initial_world (script : list (option exn)) : World :=
  {| _message_loop_task := None;
     _request_handlers := ∅;
     _notification_handlers := ∅;
     clients := ∅;
     tasks := [];
     futures := [];
     ready := [];
     send_calls := [];
     send_script := script;
     stdout := [] |}.

(** *** The parser of the specification *)

Module SpecParser.

Definition has (key : string) (payload : json) : bool :=
  bool_decide (is_Some (json_get key payload)).

Definition is_valid_request (payload : json) : bool :=
  has "method" payload && has "id" payload.

Definition is_valid_notification (payload : json) : bool :=
  has "method" payload && negb (has "id" payload).

Definition is_valid_response (payload : json) : bool :=
  has "id" payload && (has "result" payload || has "error" payload).

Definition payload_method (payload : json) : option string :=
  match json_get "method" payload with
  | Some (JStr m) => Some m
  | _ => None
  end.

Definition known (registry : list string) (m : string) : bool :=
  bool_decide (m ∈ registry).

Section Registry.

(** The methods that have a typed constructor. *)
Variable request_methods : list string.
Variable notification_methods : list string.

Definition parse_request (payload : json) : Request + Error :=
  match payload_method payload with
  | Some m =>
      if known request_methods m
      then inl {| method := m; params := json_get "params" payload |}
      else inr {| code := METHOD_NOT_FOUND;
                  message := "Unknown method: " +:+ m;
                  data := None |}
  | None => inr {| code := METHOD_NOT_FOUND; message := "Unknown method"; data := None |}
  end.

Definition parse_notification (payload : json) : option Notification :=
  match payload_method payload with
  | Some m =>
      if known notification_methods m
      then Some {| n_method := m; n_params := json_get "params" payload |}
      else None
  | None => None
  end.

Definition parse_error (j : json) : Error :=
  {| code := match json_get "code" j with Some (JNum c) => c | _ => INTERNAL_ERROR end;
     message := match json_get "message" j with Some (JStr m) => m | _ => "" end;
     data := option_map (fun d => [("data", DJson d)]) (json_get "data" j) |}.

Definition parse_response (payload : json) (original_request : Request)
  : Result + Error :=
  match json_get "error" payload with
  | Some e => inr (parse_error e)
  | None =>
      match json_get "result" payload with
      | Some r => inl {| r_value := r |}
      | None => inr {| code := INTERNAL_ERROR; message := "Invalid response"; data := None |}
      end
  end.

(** Modelled from the spec: [MessageParser] of
    conduit.shared.message_parser, which classifies a frame by which of
    [method], [id], [result] and [error] it carries and maps it to a
    typed value through the registry of methods; a request with an
    unknown method gives [Error(METHOD_NOT_FOUND)], a notification with
    an unknown method gives [None], an error-shaped response gives an
    [Error]. *)
Definition parser : MessageParser :=
  Build_MessageParser
    is_valid_request is_valid_notification is_valid_response
    parse_request parse_notification parse_response.

End Registry.

End SpecParser.

(** ** The client session's initialize handshake *)

Module ClientSession.

(** Where the handshake stands.  [InFlight] carries the callers that wait on
    the shared in-progress handle, in the order they attached. *)
Inductive InitState : Type :=
  | NotStarted
  | InFlight (waiters : list nat)
  | Done (result : Result)
  | Failed (e : exn).

Record Session : Type := mkSession {
  init_state : InitState;
  _pending_requests : list RequestId;
  client_sent_messages : list json;
  (* what each call of initialize() came back with, in order of return *)
  returned : list (nat * Outcome Result)
}.

Definition new_session : Session :=
  {| init_state := NotStarted;
     _pending_requests := [];
     client_sent_messages := [];
     returned := [] |}.

Inductive SessionEvent : Type :=
  | calls_initialize (caller : nat)
  | response_arrives (result : Result)
  | attempt_fails (e : exn).

Definition is_initialize_request (frame : json) : bool :=
  match json_get "method" frame with
  | Some (JStr m) => String.eqb m "initialize"
  | _ => false
  end.

Section Initialize.

(** The protocol version the client supports ([PROTOCOL_VERSION] of
    conduit.protocol.base), the params of its initialize request, and the id
    the facade allocates for it. *)
Variable PROTOCOL_VERSION : string.
Variable initialize_params : option json.
Variable request_id : string.

Definition initialize_request : json :=
  to_wire (JSONRPCRequest {| method := "initialize"; params := initialize_params |}
                          (inl request_id)).

Definition initialized_notification : json :=
  to_wire (JSONRPCNotification
             {| n_method := "notifications/initialized"; n_params := None |}).

Definition protocol_version_matches (result : Result) : bool :=
  match json_get "protocolVersion" (r_value result) with
  | Some (JStr v) => String.eqb v PROTOCOL_VERSION
  | _ => false
  end.

(** Modelled from the spec: [initialize(timeout)] of the client-side session
    (conduit.client.session), at the moment it is called.  It is guarded by
    the state machine [{NotStarted, InFlight(shared_handle), Done(result),
    Failed}]: the first call sends the [initialize] request and opens the
    in-flight handle; a call that finds the handshake in flight attaches to
    the handle and sends nothing; a call that finds a cached result returns
    it and sends nothing.  (What a call does after a failure, when the
    session is torn down, the specification does not say: here it comes
    back with the failure and sends nothing.) *)
Definition initialize (caller : nat) (s : Session) : Session :=
  match init_state s with
  | NotStarted =>
      {| init_state := InFlight [caller];
         _pending_requests := _pending_requests s ++ [inl request_id];
         client_sent_messages := client_sent_messages s ++ [initialize_request];
         returned := returned s |}
  | InFlight waiters =>
      {| init_state := InFlight (waiters ++ [caller]);
         _pending_requests := _pending_requests s;
         client_sent_messages := client_sent_messages s;
         returned := returned s |}
  | Done result =>
      {| init_state := Done result;
         _pending_requests := _pending_requests s;
         client_sent_messages := client_sent_messages s;
         returned := returned s ++ [(caller, Ok result)] |}
  | Failed e =>
      {| init_state := Failed e;
         _pending_requests := _pending_requests s;
         client_sent_messages := client_sent_messages s;
         returned := returned s ++ [(caller, Raise e)] |}
  end.

(** Modelled from the spec: the rest of [initialize], once the response to
    the request arrives.  On a result whose [protocolVersion] is the
    client's, the [initialized] notification is sent, the result is cached
    and every caller on the handle gets it; on a mismatch the session is torn
    down and every caller fails with a protocol-version error.  A response
    that finds no handshake in flight matches no pending request and is
    dropped. *)
Definition on_response (result : Result) (s : Session) : Session :=
  match init_state s with
  | InFlight waiters =>
      if protocol_version_matches result then
        {| init_state := Done result;
           _pending_requests := [];
           client_sent_messages := client_sent_messages s ++ [initialized_notification];
           returned := returned s ++ map (fun caller => (caller, Ok result)) waiters |}
      else
        {| init_state := Failed (ValueError "Protocol version mismatch");
           _pending_requests := [];
           client_sent_messages := client_sent_messages s;
           returned :=
             returned s ++
               map (fun caller => (caller, Raise (ValueError "Protocol version mismatch")))
                   waiters |}
  | _ => s
  end.

(** Modelled from the spec: a transport failure, a timeout or any other
    error while the handshake is in flight tears the session down; no
    [initialized] notification is sent and the pending-requests table ends
    empty. *)
Definition on_failure (e : exn) (s : Session) : Session :=
  match init_state s with
  | InFlight waiters =>
      {| init_state := Failed e;
         _pending_requests := [];
         client_sent_messages := client_sent_messages s;
         returned := returned s ++ map (fun caller => (caller, Raise e)) waiters |}
  | _ => s
  end.

Definition session_step (ev : SessionEvent) (s : Session) : Session :=
  match ev with
  | calls_initialize caller => initialize caller s
  | response_arrives result => on_response result s
  | attempt_fails e => on_failure e s
  end.

Definition session_run (evs : list SessionEvent) (s : Session) : Session :=
  foldl (fun s ev => session_step ev s) s evs.

End Initialize.

End ClientSession.

(** ** A small coordinator to run *)

Module Sample.

Definition base : ProtocolBase := {| PROTOCOL_VERSION_MISMATCH := -32001 |}.

Definition cancellation : Error :=
  {| code := -32800; message := "Request cancelled"; data := None |}.

Definition manager : ClientManager := SpecManager.manager cancellation.

Definition parser : MessageParser :=
  SpecParser.parser ["ping"; "tools/list"; "initialize"]
                    ["notifications/progress"; "notifications/cancelled"].

Definition ping : Request := {| method := "ping"; params := None |}.

Definition initialize : Request := {| method := "initialize"; params := None |}.

Definition progress : Notification :=
  {| n_method := "notifications/progress"; n_params := None |}.

Definition pong : RequestHandler := fun _ _ => Ok (inl {| r_value := JObj [] |}).

Definition boom : RequestHandler := fun _ _ => Raise (ValueError "boom").

Definition mismatch : Error :=
  {| code := -32001; message := "Unsupported protocol version"; data := None |}.

Definition refuse_version : RequestHandler := fun _ _ => Ok (inr mismatch).

Definition boom_notification : NotificationHandler :=
  fun _ _ => Raise (ValueError "boom").

(** The frame [{"jsonrpc": "2.0", "id": id, "method": method}] from client ["c1"]. *)
Definition request_from_c1 (id : Z) (method : string) : ClientMessage :=
  {| cm_client_id := "c1";
     cm_payload := JObj [("jsonrpc", JStr "2.0"); ("id", JNum id); ("method", JStr method)] |}.

Definition notification_from_c1 (method : string) : ClientMessage :=
  {| cm_client_id := "c1";
     cm_payload := JObj [("jsonrpc", JStr "2.0"); ("method", JStr method)] |}.

Definition run_sample : list Event -> World -> World := @run base parser manager.

(** A started coordinator with a handler for ["ping"]. *)
Definition serving : World :=
  run_sample [ev_start; ev_register_request_handler "ping" pong] (initial_world []).

(** The same coordinator with request 1 of client ["c1"] accepted and its
    handler task not yet run. *)
Definition busy : World :=
  run_sample [ev_client_message (request_from_c1 1 "ping")] serving.

(** A client manager whose [cleanup_client] raises. *)
Definition failing_cleanup : ClientManager :=
  Build_ClientManager
    SpecManager.get_client SpecManager.register_client
    SpecManager.track_request_from_client SpecManager.untrack_request_from_client
    SpecManager.track_request_to_client SpecManager.untrack_request_to_client
    SpecManager.get_request_to_client SpecManager.resolve_request_to_client
    (fun _ => raise (RuntimeError "cleanup failed"))
    (SpecManager.cleanup_all_clients cancellation).


End Sample.

(** ** The vocabulary of the properties *)

(** What the transport does with the next frame it is handed. *)
Definition next_send (w : World) : option exn :=
  match send_script w with
  | [] => None
  | o :: _ => o
  end.

(** The world once [transport.send(client_id, payload)] has been called. *)
Definition sent (client_id : string) (payload : json) (w : World) : World :=
  set_transport (send_calls w ++ [mkSendCall client_id payload (next_send w)])
                (tail (send_script w)) w.

(** The error the coordinator answers with when handler execution fails. *)
Definition problem_handling_request (request : Request) : Error :=
  {| code := INTERNAL_ERROR;
     message := "Problem handling request";
     data := Some [("request", DRequest request)] |}.

(** The frame of that error on the wire. *)
Definition internal_error_frame (request_id : RequestId) (request : Request) : json :=
  JObj [("jsonrpc", JStr "2.0"); ("id", id_to_json request_id);
        ("error",
         JObj [("code", JNum (-32603));
               ("message", JStr "Problem handling request");
               ("data", JObj [("request", request_to_protocol request)])])].

(** The entry of a request, read from a world. *)
Definition inbound_entry (w : World) (client_id : string) (request_id : RequestId)
  : option (Request * nat) :=
  c ← clients w !! client_id; requests_from_client c !! request_id.

Definition outbound_entry (w : World) (client_id : string) (request_id : RequestId)
  : option (Request * nat) :=
  c ← clients w !! client_id; requests_to_client c !! request_id.

(** The world once [send_request] has allocated the future and tracked the
    request (registering the client first when it is not yet registered). *)
Definition tracked (client_id : string) (request : Request) (uuid : string) (w : World)
  : World :=
  let c := default SpecManager.empty_client (clients w !! client_id) in
  set_clients
    (<[client_id :=
         SpecManager.with_outbound
           (<[inl uuid := (request, length (futures w))]> (requests_to_client c)) c]>
       (clients w))
    (set_futures (futures w ++ [FuturePending]) w).

(** What the transport does with the frame after the next one. *)
Definition send_after_next (w : World) : option exn :=
  match tail (send_script w) with
  | [] => None
  | o :: _ => o
  end.


(** A call [keeps] a relation between worlds when the world it ends in,
    whether it returns or raises, is related to the one it started in. *)
Definition keeps {A} (R : World -> World -> Prop) (c : M A) : Prop :=
  forall w, R w (snd (c w)).

(** The transport fails politely: whatever its next calls raise is an
    [Exception] (a connection-style error), never a cancellation. *)
Definition polite (w : World) : Prop :=
  Forall (fun o => forall e, o = Some e -> is_Exception e = true) (send_script w).

(** A call is [tame] when, on a polite transport, it leaves the transport
    polite and raises nothing but [Exception]s. *)
Definition tame {A} (c : M A) : Prop :=
  forall w, polite w ->
    polite (snd (c w)) /\ forall e, fst (c w) = Raise e -> is_Exception e = true.

(** The world once [_ensure_client_registered(client_id)] has run: a client
    that is registered keeps its state, another gets empty tables. *)
Definition registered (client_id : string) (w : World) : World :=
  match clients w !! client_id with
  | Some _ => w
  | None => set_clients (<[client_id := SpecManager.empty_client]> (clients w)) w
  end.

(** The error, if any, that keeps an inbound request from being dispatched:
    the parser's, or the one for a method that has no handler. *)
Definition refusal {parser : MessageParser} (w : World) (payload : json) : option Error :=
  match parse_request payload with
  | inr error => Some error
  | inl request =>
      match _request_handlers w !! method request with
      | Some _ => None
      | None =>
          Some {| code := METHOD_NOT_FOUND;
                  message := "No handler for method: " +:+ method request;
                  data := None |}
      end
  end.

#[global] Instance DoneCallback_eq_dec : EqDecision DoneCallback.
Proof. solve_decision. Defined.

(** The tasks carry the callbacks they carried. *)
Definition same_callbacks (w w' : World) : Prop :=
  map task_callbacks (tasks w') = map task_callbacks (tasks w)
  /\ map task_coro (tasks w') = map task_coro (tasks w).

(** Only the given client is concerned: the state of every other client is
    the one before, and the transport was called for this client only. *)
Definition only_client (client_id : string) (w w' : World) : Prop :=
  (forall c, c <> client_id -> clients w' !! c = clients w !! c)
  /\ exists calls, send_calls w' = send_calls w ++ calls
                   /\ Forall (fun call => sent_to call = client_id) calls.

(** The clients' tables are the ones before. *)
Definition same_clients (w w' : World) : Prop := clients w' = clients w.

(** Every inbound entry is covered: its task exists, and either the task
    is still to end and carries the done-callback that untracks the request,
    or that callback is in the queue of the event loop, scheduled and not yet
    called. *)
Definition inbound_covered (w : World) : Prop :=
  forall client_id request_id request task,
    inbound_entry w client_id request_id = Some (request, task) ->
    exists t, tasks w !! task = Some t
              /\ (task_done (task_state t) = false
                  /\ untrack_callback client_id request_id ∈ task_callbacks t
                  \/ task_done_callback (untrack_callback client_id request_id) ∈ ready w).

(** A step that tracks no inbound request, ends no task and calls no
    callback: the inbound entries after it were there before, every task is
    still there with the callbacks it had, not done if it was not, and what
    was scheduled still is. *)
Definition gentle (w w' : World) : Prop :=
  (forall c r e, inbound_entry w' c r = Some e -> inbound_entry w c r = Some e)
  /\ (forall task t,
        tasks w !! task = Some t ->
        exists t', tasks w' !! task = Some t'
                   /\ (task_done (task_state t) = false -> task_done (task_state t') = false)
                   /\ forall cb, cb ∈ task_callbacks t -> cb ∈ task_callbacks t')
  /\ (forall handle, handle ∈ ready w -> handle ∈ ready w').

(** A step that keeps [inbound_covered]. *)
Definition keeps_covered (w w' : World) : Prop := inbound_covered w -> inbound_covered w'.

(** More of the sample coordinator. *)
Module Scenario.

(** The sample coordinator on a transport that refuses its next frame. *)
Definition flaky : World :=
  set_transport [] [Some (ConnectionError "Network connection lost")] Sample.serving.

(** A response of client ["c1"] to the request [id]. *)
Definition response_from_c1 (id : string) : ClientMessage :=
  {| cm_client_id := "c1";
     cm_payload := JObj [("jsonrpc", JStr "2.0"); ("id", JStr id);
                         ("result", JObj [("roots", JList [])])] |}.

Definition quiet_notification : NotificationHandler := fun _ _ => Ok tt.

(** The sample coordinator with a handler for [notifications/progress]. *)
Definition listening : World :=
  Sample.run_sample
    [ev_register_notification_handler "notifications/progress" quiet_notification]
    Sample.serving.

End Scenario.

Section ExecutionFailure.

Context {protocol_base : ProtocolBase}.
Context {client_manager : ClientManager}.

(** How the [try] block of [_execute_request_handler] can fail: the handler
    raises, the transport refuses the response, or the disconnect cleanup
    raises.  [w1] is the world at the moment the exception [e] is raised. *)
Inductive ExecutionFails
    (handler : RequestHandler) (client_id : string) (request_id : RequestId)
    (request : Request) (w : World) (e : exn) (w1 : World) : Prop :=
  | handler_raises :
      handler client_id request = Raise e ->
      w1 = w ->
      ExecutionFails handler client_id request_id request w e w1
  | result_send_fails (result : Result) :
      handler client_id request = Ok (inl result) ->
      next_send w = Some e ->
      w1 = sent client_id (to_wire (JSONRPCResponse result request_id)) w ->
      ExecutionFails handler client_id request_id request w e w1
  | error_send_fails (error : Error) :
      handler client_id request = Ok (inr error) ->
      next_send w = Some e ->
      w1 = sent client_id (to_wire (JSONRPCError error request_id)) w ->
      ExecutionFails handler client_id request_id request w e w1
  | cleanup_fails (error : Error) :
      handler client_id request = Ok (inr error) ->
      next_send w = None ->
      _should_disconnect_for_error error = true ->
      cleanup_client client_id (sent client_id (to_wire (JSONRPCError error request_id)) w)
        = (Raise e, w1) ->
      ExecutionFails handler client_id request_id request w e w1.

End ExecutionFailure.

(** ** Properties of handler execution *)

Lemma transport_send_eq client_id payload w :
  transport_send client_id payload w =
  (match next_send w with None => Ok tt | Some e => Raise e end, sent client_id payload w).
Proof.
  unfold transport_send, sent, next_send.
  destruct (send_script w) as [|[e|] script]; reflexivity.
Qed.

Lemma to_wire_internal_error request_id request :
  to_wire (JSONRPCError (problem_handling_request request) request_id) =
  internal_error_frame request_id request.
Proof. reflexivity. Qed.

Section HandlerExecution.

Context {protocol_base : ProtocolBase}.
Context {parser : MessageParser}.
Context {client_manager : ClientManager}.

Lemma _send_error_eq client_id request_id error w :
  _send_error client_id request_id error w =
  (match next_send w with None => Ok tt | Some e => Raise e end,
   sent client_id (to_wire (JSONRPCError error request_id)) w).
Proof. unfold _send_error. apply transport_send_eq. Qed.

Lemma call_ready_ok callback w : fst (call_ready callback w) = Ok tt.
Proof.
  unfold call_ready, try_except.
  destruct (callback w) as [[[]|e] w']; reflexivity.
Qed.

Lemma run_done_callbacks_ok cbs w : fst (run_done_callbacks cbs w) = Ok tt.
Proof.
  revert w. induction cbs as [|cb cbs IH]; intros w; [reflexivity|].
  simpl. unfold bind. destruct cb as [client_id request_id]. simpl.
  pose proof (call_ready_ok (untrack_request_from_client client_id request_id ;; ret tt) w) as Hc.
  destruct (call_ready _ w) as [r w']. simpl in Hc. subst r. apply IH.
Qed.

Lemma task_finishes_ok task s w : fst (task_finishes task s w) = Ok tt.
Proof.
  unfold task_finishes, bind, modify, get_world.
  destruct (tasks _ !! task); [apply run_done_callbacks_ok | reflexivity].
Qed.

Lemma task_ends_eq task s w :
  exists handles, task_ends task s w = (Ok tt, set_ready handles (set_task_state task s w)).
Proof.
  unfold task_ends, bind, modify, get_world.
  destruct (tasks (set_task_state task s w) !! task) as [t|]; [by eexists|].
  exists (ready w). by destruct w.
Qed.

Lemma task_turn_ok finish task w :
  (forall s w0, fst (finish task s w0) = Ok tt) ->
  fst (task_turn finish task w) = Ok tt.
Proof.
  intros Hfinish. unfold task_turn, bind, get_world, outcome_of.
  destruct (tasks w !! task) as [t|]; [|reflexivity].
  destruct (task_state t); try reflexivity; [|apply Hfinish].
  destruct (run_coroutine (task_coro t) w) as [[[]|e] w'].
  - destruct (task_state <$> tasks w' !! task) as [[]|]; apply Hfinish.
  - destruct (is_CancelledError e); apply Hfinish.
Qed.

Lemma task_step_ok task w : fst (task_step task w) = Ok tt.
Proof.
  apply task_turn_ok. intros s w0. by destruct (task_ends_eq task s w0) as (handles & ->).
Qed.

(** An exception never leaves the turn of a task: whatever the coroutine
    does, the event loop goes on. *)
Lemma run_task_ok task w : fst (run_task task w) = Ok tt.
Proof. apply task_turn_ok. intros s w0. apply task_finishes_ok. Qed.

(** C6. When the registered handler of an inbound request raises an
    exception, the coordinator calls the transport with one frame for the
    client: the JSON-RPC error response for that request id whose code is
    INTERNAL_ERROR (-32603) and whose [data] echoes the original request
    under ["request"].  Nothing else changes: the client's tables, the
    tasks, the futures, the handlers, the output and the message loop task
    are the ones before, so the client is not torn down and the coordinator
    is as running as it was. *)
Theorem handler_exception_answers_internal_error
    handler client_id request_id request w e :
  handler client_id request = Raise e ->
  is_Exception e = true ->
  let w' := after (_execute_request_handler handler client_id request_id request) w in
  send_calls w' =
    send_calls w ++
      [mkSendCall client_id
         (JObj [("jsonrpc", JStr "2.0"); ("id", id_to_json request_id);
                ("error",
                 JObj [("code", JNum (-32603));
                       ("message", JStr "Problem handling request");
                       ("data", JObj [("request", request_to_protocol request)])])])
         (next_send w)]
  /\ clients w' = clients w
  /\ tasks w' = tasks w
  /\ futures w' = futures w
  /\ _request_handlers w' = _request_handlers w
  /\ _notification_handlers w' = _notification_handlers w
  /\ stdout w' = stdout w
  /\ _message_loop_task w' = _message_loop_task w
  /\ running w' = running w.
Proof.
  intros Hh He w'. subst w'. unfold after, _execute_request_handler.
  unfold try_except, bind, await_outcome. rewrite Hh, He.
  rewrite _send_error_eq. simpl. repeat split.
Qed.

(** C10. Whatever fails with an exception inside handler execution, be it
    the handler, the transport's send of the response, or the disconnect
    cleanup, the coordinator goes on to [_send_error] with the
    INTERNAL_ERROR error that echoes the request: the transport is called
    with that frame, and the message loop task is left as the failure left
    it.  And no turn of a task raises into the event loop, so the message
    loop is not terminated. *)
Theorem any_execution_failure_answers_internal_error
    handler client_id request_id request w e w1 :
  ExecutionFails handler client_id request_id request w e w1 ->
  is_Exception e = true ->
  let w' := after (_execute_request_handler handler client_id request_id request) w in
  _execute_request_handler handler client_id request_id request w =
    _send_error client_id request_id (problem_handling_request request) w1
  /\ send_calls w' =
       send_calls w1 ++
         [mkSendCall client_id (internal_error_frame request_id request) (next_send w1)]
  /\ _message_loop_task w' = _message_loop_task w1
  /\ (forall task w0, fst (run_task task w0) = Ok tt).
Proof.
  intros Hfail He w'.
  assert (Heq : _execute_request_handler handler client_id request_id request w =
                _send_error client_id request_id (problem_handling_request request) w1).
  { unfold _execute_request_handler, try_except, bind, await_outcome.
    destruct Hfail as [Hh ->|result Hh Hs ->|error Hh Hs ->|error Hh Hs Hd Hc].
    - rewrite Hh, He. reflexivity.
    - rewrite Hh, transport_send_eq, Hs, He. reflexivity.
    - rewrite Hh, transport_send_eq, Hs, He. reflexivity.
    - rewrite Hh, transport_send_eq, Hs, Hd, Hc, He. reflexivity. }
  subst w'. unfold after. rewrite Heq, _send_error_eq. simpl.
  repeat split. intros. apply run_task_ok.
Qed.

End HandlerExecution.

(** ** What a call leaves unchanged *)

Section Keeps.

Variable R : World -> World -> Prop.
Hypothesis R_refl : forall w, R w w.
Hypothesis R_trans : forall w1 w2 w3, R w1 w2 -> R w2 w3 -> R w1 w3.

Lemma keeps_ret {A} (a : A) : keeps R (ret a).
Proof. intros w. apply R_refl. Qed.

Lemma keeps_raise {A} e : keeps R (@raise A e).
Proof. intros w. apply R_refl. Qed.

Lemma keeps_get_world : keeps R get_world.
Proof. intros w. apply R_refl. Qed.

Lemma keeps_await_outcome {A} (o : Outcome A) : keeps R (await_outcome o).
Proof. intros w. apply R_refl. Qed.

Lemma keeps_modify f : (forall w, R w (f w)) -> keeps R (modify f).
Proof. intros Hf w. apply Hf. Qed.

Lemma keeps_bind {A B} (c : M A) (k : A -> M B) :
  keeps R c -> (forall a, keeps R (k a)) -> keeps R (bind c k).
Proof.
  intros Hc Hk w. unfold bind. specialize (Hc w).
  destruct (c w) as [[a|e] w1]; cbn [snd] in *; [|done].
  eapply R_trans; [exact Hc|apply Hk].
Qed.

Lemma keeps_try_except {A} (body : M A) catches handler :
  keeps R body -> (forall e, keeps R (handler e)) -> keeps R (try_except body catches handler).
Proof.
  intros Hb Hh w. unfold try_except. specialize (Hb w).
  destruct (body w) as [[a|e] w1]; cbn [snd] in *; [done|].
  destruct (catches e); [|done]. eapply R_trans; [exact Hb|apply Hh].
Qed.

Lemma keeps_try_finally {A} (body : M A) cleanup :
  keeps R body -> keeps R cleanup -> keeps R (try_finally body cleanup).
Proof.
  intros Hb Hc w. unfold try_finally. specialize (Hb w).
  destruct (body w) as [r w1]. specialize (Hc w1).
  destruct (cleanup w1) as [[[]|e] w2]; cbn [snd] in *; eapply R_trans; eauto.
Qed.

Lemma keeps_outcome_of {A} (c : M A) : keeps R c -> keeps R (outcome_of c).
Proof. intros Hc w. specialize (Hc w). unfold outcome_of. by destruct (c w). Qed.

End Keeps.

(** ** Properties over the client manager of the specification *)

Section OverSpecManager.

Context {protocol_base : ProtocolBase}.
Context {parser : MessageParser}.
Variable cancellation_error : Error.

#[local] Instance spec_manager : ClientManager := SpecManager.manager cancellation_error.

Lemma teardown_transport client_id w :
  send_calls (SpecManager.teardown cancellation_error client_id w) = send_calls w
  /\ send_script (SpecManager.teardown cancellation_error client_id w) = send_script w
  /\ stdout (SpecManager.teardown cancellation_error client_id w) = stdout w
  /\ _message_loop_task (SpecManager.teardown cancellation_error client_id w)
     = _message_loop_task w.
Proof.
  unfold SpecManager.teardown. destruct (clients w !! client_id); repeat split.
Qed.

Lemma teardown_clients client_id w :
  clients (SpecManager.teardown cancellation_error client_id w) = delete client_id (clients w).
Proof.
  unfold SpecManager.teardown. destruct (clients w !! client_id) eqn:E; simpl; [reflexivity|].
  symmetry. by apply delete_id.
Qed.

Lemma cleanup_client_eq client_id w :
  cleanup_client client_id w = (Ok tt, SpecManager.teardown cancellation_error client_id w).
Proof. reflexivity. Qed.

Lemma untrack_from_only_clients client_id request_id w :
  exists r cs, untrack_request_from_client client_id request_id w = (Ok r, set_clients cs w).
Proof.
  simpl. unfold SpecManager.untrack_request_from_client.
  destruct (clients w !! client_id) as [c|]; eauto.
  exists None, (clients w). by destruct w.
Qed.

Lemma run_done_callbacks_only_clients cbs w :
  exists cs, run_done_callbacks cbs w = (Ok tt, set_clients cs w).
Proof.
  revert w. induction cbs as [|[client_id request_id] cbs IH]; intros w.
  - exists (clients w). by destruct w.
  - cbn [run_done_callbacks run_done_callback].
    unfold bind at 1. unfold call_ready, try_except, bind.
    destruct (untrack_from_only_clients client_id request_id w) as (r & cs & ->).
    unfold ret. destruct (IH (set_clients cs w)) as (cs' & ->). by exists cs'.
Qed.

Lemma task_finishes_only_clients task s w :
  exists cs, task_finishes task s w = (Ok tt, set_clients cs (set_task_state task s w)).
Proof.
  unfold task_finishes, bind, modify, get_world.
  destruct (tasks (set_task_state task s w) !! task) as [t|].
  - apply run_done_callbacks_only_clients.
  - exists (clients w). by destruct w.
Qed.

(** C5, as the code has it.  When the handler of an inbound request returns
    an [Error] and the transport accepts the error response, the coordinator
    has sent that response and then, whatever the client manager: if the
    error's code is PROTOCOL_VERSION_MISMATCH it calls [cleanup_client] for
    the client, in the world the send has left (a cleanup that raises an
    exception takes the INTERNAL_ERROR path); for any other code it calls
    nothing more and the world is the one just after the send.  With the
    client manager of the specification, a registered client is gone
    afterwards if and only if the code is PROTOCOL_VERSION_MISMATCH. *)
Theorem error_result_disconnects_iff_version_mismatch
    handler client_id request_id request error w :
  handler client_id request = Ok (inr error) ->
  next_send w = None ->
  let w1 := sent client_id (to_wire (JSONRPCError error request_id)) w in
  let w' := after (_execute_request_handler handler client_id request_id request) w in
  send_calls w1 =
    send_calls w ++ [mkSendCall client_id (to_wire (JSONRPCError error request_id)) None]
  /\ clients w1 = clients w
  /\ (code error = PROTOCOL_VERSION_MISMATCH ->
      forall manager : ClientManager,
        @_execute_request_handler protocol_base manager
          handler client_id request_id request w
        = try_except (@cleanup_client manager client_id) is_Exception
            (fun _ => _send_error client_id request_id (problem_handling_request request))
            w1)
  /\ (code error <> PROTOCOL_VERSION_MISMATCH ->
      forall manager : ClientManager,
        @_execute_request_handler protocol_base manager
          handler client_id request_id request w
        = (Ok tt, w1))
  /\ fst (_execute_request_handler handler client_id request_id request w) = Ok tt
  /\ (code error = PROTOCOL_VERSION_MISMATCH ->
      w' = after (cleanup_client client_id) w1)
  /\ (code error <> PROTOCOL_VERSION_MISMATCH -> w' = w1)
  /\ (is_Some (clients w !! client_id) ->
      clients w' !! client_id = None <-> code error = PROTOCOL_VERSION_MISMATCH).
Proof.
  intros Hh Hs w1 w'.
  assert (Hany : forall manager : ClientManager,
            @_execute_request_handler protocol_base manager
              handler client_id request_id request w
            = if Z.eqb (code error) PROTOCOL_VERSION_MISMATCH
              then try_except (@cleanup_client manager client_id) is_Exception
                     (fun _ => _send_error client_id request_id
                                 (problem_handling_request request)) w1
              else (Ok tt, w1)).
  { intros manager. unfold _execute_request_handler, try_except, bind, await_outcome.
    rewrite Hh, transport_send_eq, Hs. unfold _should_disconnect_for_error.
    destruct (Z.eqb (code error) PROTOCOL_VERSION_MISMATCH); reflexivity. }
  assert (Hsent : send_calls w1 =
            send_calls w ++
              [mkSendCall client_id (to_wire (JSONRPCError error request_id)) None]).
  { subst w1. unfold sent. cbn [send_calls set_transport]. by rewrite Hs. }
  split; [exact Hsent|]. split; [reflexivity|].
  subst w'. unfold after.
  destruct (Z.eqb_spec (code error) PROTOCOL_VERSION_MISMATCH) as [Heq|Hne].
  - split; [intros _ manager; apply Hany|]. split; [done|].
    rewrite (Hany spec_manager). unfold try_except. rewrite cleanup_client_eq.
    cbn [fst snd]. rewrite teardown_clients.
    split; [done|]. split; [done|]. split; [done|].
    intros _. split; [done|]. intros _. apply lookup_delete_eq.
  - split; [done|]. split; [intros _ manager; apply Hany|].
    rewrite (Hany spec_manager). cbn [fst snd].
    split; [done|]. split; [done|]. split; [done|].
    intros [c Hc]. split; [|done].
    intros Habs. subst w1. unfold sent in Habs.
    cbn [clients set_transport] in Habs. congruence.
Qed.

(** C4, as the code has it.  Handling an inbound notification calls the
    transport for no frame, in none of its paths, with or without a
    registered handler, and a notification that the parser does not know is
    dropped with the world unchanged.  When the event loop gives the detached
    task of a notification handler its turn, the transport is not called
    either and nothing is printed; if the handler raises, the coordinator
    has no clause that catches the exception: it stays in the task, which
    ends failed with it, and the turn of the task ends normally. *)
Theorem notification_never_answers client_id payload w :
  send_calls (after (_handle_notification client_id payload) w) = send_calls w
  /\ (is_valid_request payload = false ->
      is_valid_notification payload = true ->
      fst (_message_loop_iteration (mkClientMessage client_id payload) w) = Ok tt
      /\ send_calls (after (_message_loop_iteration (mkClientMessage client_id payload)) w)
         = send_calls w)
  /\ (forall method,
        json_get "method" payload = Some method ->
        parse_notification payload = None ->
        _handle_notification client_id payload w = (Ok tt, w))
  /\ (forall task handler sender notification state cbs,
        tasks w !! task = Some (mkTask (notification_handler_coro handler sender notification)
                                       state cbs) ->
        fst (task_step task w) = Ok tt
        /\ send_calls (after (task_step task) w) = send_calls w
        /\ stdout (after (task_step task) w) = stdout w
        /\ (forall e,
              state = TaskPending ->
              handler sender notification = Raise e ->
              is_Exception e = true ->
              tasks (after (task_step task) w) !! task
              = Some (mkTask (notification_handler_coro handler sender notification)
                             (TaskFailed e) cbs))).
Proof.
  assert (Hhandle : send_calls (after (_handle_notification client_id payload) w)
                    = send_calls w).
  { unfold after, _handle_notification, subscript, bind, get_world, create_task, print,
      modify, ret, raise.
    repeat case_match; simplify_eq; reflexivity. }
  split; [exact Hhandle|]. split; [|split].
  - intros Hreq Hnotif.
    unfold after, _message_loop_iteration, _route_client_message, try_except in *.
    cbn [cm_payload cm_client_id]. rewrite Hreq, Hnotif.
    unfold after in Hhandle.
    destruct (_handle_notification client_id payload w) as [[[]|e] w1] eqn:E;
      cbn [fst snd] in *; [done|].
    unfold print, modify. destruct (is_Exception e) eqn:He; cbn [fst snd]; [done|].
    exfalso. revert E.
    unfold _handle_notification, subscript, bind, get_world, create_task, print,
      modify, ret, raise.
    repeat case_match; intros; simplify_eq; discriminate.
  - intros method Hm Hp. unfold _handle_notification, subscript, bind.
    rewrite Hm. unfold ret. by rewrite Hp.
  - intros task handler sender notification state cbs Ht.
    split; [apply task_step_ok|].
    unfold after, task_step, task_turn, bind, get_world, outcome_of. rewrite Ht.
    cbn [task_state task_coro].
    destruct state; cbn [run_coroutine await_outcome];
      try (split; [reflexivity|]; split; [reflexivity|]; intros; discriminate).
    + destruct (handler sender notification) as [[]|e] eqn:Hh.
      * destruct (task_state <$> tasks w !! task) as [[]|];
          match goal with |- context [task_ends ?t ?s ?x] =>
            destruct (task_ends_eq t s x) as (handles & ->) end;
          (split; [reflexivity|]; split; [reflexivity|]; intros; discriminate).
      * destruct (is_CancelledError e) eqn:Hc;
          match goal with |- context [task_ends ?t ?s ?x] =>
            destruct (task_ends_eq t s x) as (handles & ->) end;
          (split; [reflexivity|]; split; [reflexivity|]).
        -- intros e' _ He' Hex. simplify_eq. by destruct e'.
        -- intros e' _ He' _. simplify_eq.
           cbn [snd tasks set_ready set_task_state set_tasks].
           by rewrite list_lookup_alter_eq, Ht.
    + match goal with |- context [task_ends ?t ?s ?x] =>
        destruct (task_ends_eq t s x) as (handles & ->) end.
      split; [reflexivity|]. split; [reflexivity|]. intros; discriminate.
Qed.

Lemma json_to_id_of_id request_id : json_to_id (id_to_json request_id) = Some request_id.
Proof. by destruct request_id. Qed.

Lemma payload_id_eq payload request_id w :
  json_get "id" payload = Some (id_to_json request_id) ->
  payload_id payload w = (Ok request_id, w).
Proof.
  intros Hid. unfold payload_id, subscript, bind. rewrite Hid. unfold ret.
  by rewrite json_to_id_of_id.
Qed.


Lemma send_request_running client_id request uuid suspended wake w :
  running w = true ->
  send_request client_id request uuid suspended wake w =
  try_finally
    (try_except
       (transport_send client_id (to_wire (JSONRPCRequest request (inl uuid))) ;;
        modify suspended ;;
        wait_for (length (futures w)) wake)
       is_TimeoutError
       (fun e => _handle_request_timeout client_id uuid ;; raise e))
    (untrack_request_to_client client_id (inl uuid) ;; ret tt)
    (tracked client_id request uuid w).
Proof.
  intros Hr. unfold send_request, bind at 1. unfold self_running. rewrite Hr. cbn [negb].
  unfold bind at 1. unfold new_future.
  unfold bind at 1. unfold _ensure_client_registered, bind at 1.
  cbn [get_client spec_manager SpecManager.manager]. unfold SpecManager.get_client.
  cbn [clients set_futures].
  unfold tracked.
  destruct (clients w !! client_id) as [c|] eqn:Hc.
  - unfold ret. unfold bind at 1.
    cbn [track_request_to_client spec_manager SpecManager.manager].
    unfold SpecManager.track_request_to_client. cbn [clients set_futures]. rewrite Hc.
    reflexivity.
  - cbn [register_client spec_manager SpecManager.manager].
    unfold SpecManager.register_client, modify. unfold bind at 1.
    cbn [track_request_to_client spec_manager SpecManager.manager].
    unfold SpecManager.track_request_to_client. cbn [clients set_futures set_clients].
    rewrite lookup_insert_eq. cbn [default]. rewrite insert_insert_eq. reflexivity.
Qed.

Lemma tracked_entry client_id request uuid w :
  outbound_entry (tracked client_id request uuid w) client_id (inl uuid)
  = Some (request, length (futures w)).
Proof.
  unfold outbound_entry, tracked. cbn [clients set_clients].
  rewrite lookup_insert_eq. cbn. apply lookup_insert_eq.
Qed.

Lemma untrack_to_removes client_id request_id w :
  exists cs,
    (untrack_request_to_client client_id request_id ;; ret tt) w = (Ok tt, set_clients cs w)
    /\ outbound_entry (set_clients cs w) client_id request_id = None.
Proof.
  unfold bind. cbn [untrack_request_to_client spec_manager SpecManager.manager].
  unfold SpecManager.untrack_request_to_client, outbound_entry.
  destruct (clients w !! client_id) as [c|] eqn:Hc.
  - eexists. split; [reflexivity|]. cbn [clients set_clients].
    rewrite lookup_insert_eq. cbn. apply lookup_delete_eq.
  - exists (clients w). split; [by destruct w|]. cbn [clients set_clients]. by rewrite Hc.
Qed.

(** After [try: ... finally: untrack_request_to_client(...)], whatever the
    body did, the entry is gone; the outcome and the transport are the ones
    the body left. *)
Lemma finally_untracked {A} (body : M A) client_id request_id w :
  outbound_entry
    (after (try_finally body (untrack_request_to_client client_id request_id ;; ret tt)) w)
    client_id request_id = None
  /\ fst (try_finally body (untrack_request_to_client client_id request_id ;; ret tt) w)
     = fst (body w)
  /\ send_calls
       (after (try_finally body (untrack_request_to_client client_id request_id ;; ret tt)) w)
     = send_calls (after body w).
Proof.
  unfold after, try_finally. destruct (body w) as [r w1].
  destruct (untrack_to_removes client_id request_id w1) as (cs & -> & Hcs).
  cbn [fst snd]. repeat split; done.
Qed.



(** C9. On a running coordinator, when the transport's [send] of the request
    raises, [send_request] raises too and the outbound entry that was tracked
    for [(client_id, request_id)] is gone.  The exception raised is the
    transport's own; the one way for another to take its place is a send
    that fails with a timeout error, for which the coordinator tries the
    cancellation notification, and a cancellation of the caller during that
    second send. *)
Theorem failed_send_propagates_and_untracks
    client_id request uuid suspended wake w e :
  running w = true ->
  next_send w = Some e ->
  let w' := after (send_request client_id request uuid suspended wake) w in
  outbound_entry (tracked client_id request uuid w) client_id (inl uuid)
    = Some (request, length (futures w))
  /\ outbound_entry w' client_id (inl uuid) = None
  /\ (exists e', fst (send_request client_id request uuid suspended wake w) = Raise e')
  /\ (is_TimeoutError e = false \/
      (forall e2, send_after_next w = Some e2 -> is_Exception e2 = true) ->
      fst (send_request client_id request uuid suspended wake w) = Raise e).
Proof.
  intros Hr Hs w'.
  split; [apply tracked_entry|].
  subst w'. unfold after. rewrite (send_request_running _ _ _ _ _ _ Hr).
  match goal with |- context [try_finally ?b _ ?x] =>
    destruct (finally_untracked b client_id (inl uuid) x) as (Hgone & Hfst & _) end.
  unfold after in *.
  split; [exact Hgone|]. rewrite Hfst. clear Hgone Hfst.
  match goal with |- context [try_except ?b ?c ?h ?x] => set (body := try_except b c h x) end.
  set (w0 := sent client_id (to_wire (JSONRPCRequest request (inl uuid)))
                  (tracked client_id request uuid w)).
  assert (Hbody : body = if is_TimeoutError e
                         then (_handle_request_timeout client_id uuid ;; raise e) w0
                         else (Raise e, w0)).
  { subst body. unfold try_except, bind at 1 2. rewrite transport_send_eq.
    assert (Hn : next_send (tracked client_id request uuid w) = Some e) by exact Hs.
    rewrite Hn. reflexivity. }
  rewrite Hbody. clear Hbody body.
  destruct (is_TimeoutError e) eqn:Ht.
  - unfold bind, raise.
    destruct (_handle_request_timeout client_id uuid w0) as [[[]|e3] w3] eqn:Eh.
    + split; [by eexists|]. intros _. reflexivity.
    + split; [by eexists|]. intros [Hf|Hex]; [discriminate|]. exfalso.
      revert Eh.
      unfold _handle_request_timeout, try_except, send_notification, bind, self_running.
      assert (Hrx : running w0 = true) by exact Hr.
      rewrite Hrx. cbn [negb]. rewrite transport_send_eq.
      assert (Hnx : next_send w0 = send_after_next w) by reflexivity.
      rewrite Hnx. destruct (send_after_next w) as [e2|]; [|discriminate].
      rewrite (Hex e2 eq_refl). unfold print, modify. discriminate.
  - split; [by eexists|]. intros _. reflexivity.
Qed.

(** *** Leaving the running state *)

Lemma foldr_teardown_clients ks w :
  clients (foldr (SpecManager.teardown cancellation_error) w ks)
  = foldr delete (clients w) ks.
Proof.
  induction ks as [|k ks IH]; [reflexivity|].
  cbn [foldr]. by rewrite teardown_clients, IH.
Qed.

Lemma foldr_teardown_loop ks w :
  _message_loop_task (foldr (SpecManager.teardown cancellation_error) w ks)
  = _message_loop_task w.
Proof.
  induction ks as [|k ks IH]; [reflexivity|].
  cbn [foldr]. destruct (teardown_transport k (foldr (SpecManager.teardown cancellation_error) w ks))
    as (_ & _ & _ & ->). exact IH.
Qed.

Lemma cleanup_all_clients_eq w :
  exists w', cleanup_all_clients w = (Ok tt, w')
             /\ clients w' = ∅
             /\ _message_loop_task w' = _message_loop_task w.
Proof.
  eexists. split; [reflexivity|]. split; [|apply foldr_teardown_loop].
  rewrite foldr_teardown_clients. apply map_eq. intros k. rewrite lookup_empty.
  destruct (clients w !! k) as [c|] eqn:Hk.
  - apply lookup_foldr_delete. apply list_elem_of_fmap. exists (k, c).
    split; [reflexivity|]. by apply elem_of_map_to_list.
  - apply eq_None_not_Some. intros [c Hc].
    apply lookup_foldr_delete_Some in Hc. destruct Hc as [_ Hc]. congruence.
Qed.

Lemma on_message_loop_done_eq w :
  exists w', _on_message_loop_done w = (Ok tt, w')
             /\ clients w' = ∅ /\ _message_loop_task w' = None.
Proof.
  unfold _on_message_loop_done, bind, modify.
  destruct (cleanup_all_clients_eq (set_message_loop_task None w)) as (w' & -> & Hc & Hl).
  by exists w'.
Qed.

Lemma run_message_loop_done_eq w :
  exists w', run_handle message_loop_done w = (Ok tt, w')
             /\ clients w' = ∅ /\ _message_loop_task w' = None.
Proof.
  cbn [run_handle]. unfold call_ready, try_except.
  destruct (on_message_loop_done_eq w) as (w' & -> & Hc & Hl). by exists w'.
Qed.

Lemma foldr_teardown_ready ks w :
  ready (foldr (SpecManager.teardown cancellation_error) w ks) = ready w.
Proof.
  induction ks as [|k ks IH]; [reflexivity|].
  cbn [foldr]. unfold SpecManager.teardown at 1. by case_match.
Qed.

(** Calling a callback leaves the queue of the loop as it is. *)
Lemma run_handle_ready handle w : ready (snd (run_handle handle w)) = ready w.
Proof.
  destruct handle as [|[client_id request_id]]; cbn [run_handle run_done_callback];
    unfold call_ready, try_except.
  - unfold _on_message_loop_done, bind, modify.
    cbn [cleanup_all_clients spec_manager SpecManager.manager].
    unfold SpecManager.cleanup_all_clients, modify. cbn [snd].
    by rewrite foldr_teardown_ready.
  - unfold bind.
    destruct (untrack_from_only_clients client_id request_id w) as (r & cs & ->). done.
Qed.

Lemma run_handle_ok handle w : fst (run_handle handle w) = Ok tt.
Proof.
  destruct handle as [|[client_id request_id]]; cbn [run_handle run_done_callback];
    apply call_ready_ok.
Qed.

Lemma run_handles_ok handles w : fst (run_handles handles w) = Ok tt.
Proof.
  revert w. induction handles as [|handle handles IH]; intros w; [reflexivity|].
  cbn [run_handles]. unfold bind. pose proof (run_handle_ok handle w) as Hh.
  destruct (run_handle handle w) as [r w']. cbn [fst] in Hh. subst r. apply IH.
Qed.

Lemma run_ready_ok w : fst (run_ready w) = Ok tt.
Proof. unfold run_ready, bind, get_world, modify. apply run_handles_ok. Qed.

Lemma stop_running w :
  running w = true ->
  exists w', stop w = (Ok tt, w') /\ clients w' = ∅ /\ _message_loop_task w' = None.
Proof.
  intros Hr. unfold stop, bind at 1. unfold self_running. rewrite Hr. cbn [negb].
  unfold bind at 1. unfold get_world. unfold running in Hr.
  destruct (_message_loop_task w) as [st|]; [|discriminate].
  unfold bind at 1 2. unfold modify at 1.
  unfold try_except, await_message_loop_task, message_loop_task_done, call_soon.
  unfold bind at 1 2 3. unfold modify at 1 2. unfold bind at 1.
  match goal with |- context [run_ready ?x] =>
    pose proof (run_ready_ok x) as Hok; destruct (run_ready x) as [r w1] end.
  cbn [fst] in Hok. subst r. unfold raise. cbn [is_CancelledError]. unfold ret, bind, modify.
  destruct (cleanup_all_clients_eq (set_message_loop_task None w1)) as (w' & -> & Hc & Hl).
  by exists w'.
Qed.

Lemma stop_idle w : running w = false -> stop w = (Ok tt, w).
Proof. intros Hr. unfold stop, bind, self_running. by rewrite Hr. Qed.

(** The end of the message loop: a line on the output when the stream
    raised an exception, the task done, its done-callback scheduled. *)
Lemma message_loop_ends_eq cause w :
  exists final out,
    task_done final = true
    /\ message_loop_ends cause w
       = (Ok tt,
          set_ready (ready w ++ [message_loop_done])
            (set_message_loop_task (Some final) (set_stdout out w))).
Proof.
  unfold message_loop_ends, bind, outcome_of, _message_loop, try_except.
  destruct cause as [e|]; cbn [_message_loop_over].
  - unfold raise. destruct (is_Exception e) eqn:He.
    + exists TaskFinished, (stdout w ++ [Transport_error e]). done.
    + exists TaskCancelled, (stdout w). destruct e; try discriminate.
      split; [done|]. cbn [is_CancelledError]. by destruct w.
  - exists TaskFinished, (stdout w). split; [done|]. by destruct w.
Qed.

(** C2, as the code has it.  Leaving the running state cleans up, whatever
    the cause, but not always at once.  A [stop] on a running coordinator
    ends with [cleanup_all_clients]: when it returns the coordinator is not
    running and the client manager has no client left, so every lookup in an
    inbound or outbound table finds nothing.  The end of the message loop, by
    exhaustion of the stream, by an exception of the stream or by
    cancellation, leaves the coordinator not running with the clients as
    they were and the done-callback of the loop task scheduled; when the
    event loop calls that callback, in whatever world, [cleanup_all_clients]
    runs and no client is left.  A [stop] on a coordinator that is not
    running, which is also what the coordinator is between the end of the
    loop and the call of its done-callback, returns at once and cleans
    nothing. *)
Theorem leaving_running_cleans_up :
  (forall w,
      running w = true ->
      let w' := after stop w in
      fst (stop w) = Ok tt
      /\ running w' = false
      /\ clients w' = ∅
      /\ (forall client_id request_id,
            inbound_entry w' client_id request_id = None
            /\ outbound_entry w' client_id request_id = None))
  /\ (forall w cause,
        let w1 := after (message_loop_ends cause) w in
        fst (message_loop_ends cause w) = Ok tt
        /\ running w1 = false
        /\ clients w1 = clients w
        /\ ready w1 = ready w ++ [message_loop_done]
        /\ (ready w = [] ->
            ready (after run_next_ready w1) = []
            /\ clients (after run_next_ready w1) = ∅))
  /\ (forall w,
        let w2 := after (run_handle message_loop_done) w in
        fst (run_handle message_loop_done w) = Ok tt
        /\ running w2 = false
        /\ clients w2 = ∅)
  /\ (forall w, running w = false -> stop w = (Ok tt, w)).
Proof.
  split; [|split; [|split]].
  - intros w Hr w'. subst w'. destruct (stop_running w Hr) as (w' & Hs & Hc & Hl).
    unfold after. rewrite Hs. cbn [fst snd]. unfold running. rewrite Hl.
    repeat split; try done.
    + unfold inbound_entry. by rewrite Hc, lookup_empty.
    + unfold outbound_entry. by rewrite Hc, lookup_empty.
  - intros w cause w1. subst w1.
    destruct (message_loop_ends_eq cause w) as (final & out & Hd & Heq).
    unfold after. rewrite Heq. cbn [fst snd]. unfold running.
    cbn [_message_loop_task clients ready set_ready set_message_loop_task set_stdout].
    rewrite Hd. split; [done|]. split; [done|]. split; [done|]. split; [done|].
    intros Hrd. rewrite Hrd. unfold run_next_ready, bind, get_world, modify.
    cbn [ready set_ready app]. split.
    + by rewrite run_handle_ready.
    + match goal with |- context [run_handle message_loop_done ?x] =>
        destruct (run_message_loop_done_eq x) as (w' & -> & Hc & _) end.
      done.
  - intros w w2. subst w2. destruct (run_message_loop_done_eq w) as (w' & Hrun & Hc & Hl).
    unfold after. rewrite Hrun. cbn [fst snd]. unfold running. by rewrite Hl.
  - apply stop_idle.
Qed.

(** *** The message loop outlives its messages *)

Lemma tame_ret {A} (a : A) : tame (ret a).
Proof. intros w Hw. split; [done|]. intros e He. discriminate. Qed.

Lemma tame_raise {A} e : is_Exception e = true -> tame (@raise A e).
Proof. intros He w Hw. split; [done|]. intros e' He'. cbn in He'. congruence. Qed.

Lemma tame_get_world : tame get_world.
Proof. intros w Hw. split; [done|]. intros e He. discriminate. Qed.

Lemma tame_modify f : (forall w, send_script (f w) = send_script w) -> tame (modify f).
Proof.
  intros Hf w Hw. split; [|intros e He; discriminate].
  unfold polite, modify in *. cbn [snd]. by rewrite Hf.
Qed.

Lemma tame_bind {A B} (c : M A) (k : A -> M B) :
  tame c -> (forall a, tame (k a)) -> tame (bind c k).
Proof.
  intros Hc Hk w Hw. unfold bind. destruct (Hc w Hw) as [Hp He].
  destruct (c w) as [[a|e] w1]; cbn [fst snd] in *.
  - apply Hk, Hp.
  - split; [exact Hp|]. intros e' He'. apply He. congruence.
Qed.

Lemma tame_try_except {A} (body : M A) catches handler :
  tame body -> (forall e, tame (handler e)) -> tame (try_except body catches handler).
Proof.
  intros Hb Hh w Hw. unfold try_except. destruct (Hb w Hw) as [Hp He].
  destruct (body w) as [[a|e] w1]; cbn [fst snd] in *.
  - split; [exact Hp|]. intros e' He'. discriminate.
  - destruct (catches e); [apply Hh, Hp|].
    split; [exact Hp|]. intros e' He'. apply He. exact He'.
Qed.

Lemma tame_print line : tame (print line).
Proof. apply tame_modify. reflexivity. Qed.

Lemma tame_transport_send client_id payload : tame (transport_send client_id payload).
Proof.
  intros w Hw. rewrite transport_send_eq. cbn [fst snd]. unfold polite, sent, next_send in *.
  cbn [send_script set_transport].
  destruct (send_script w) as [|o script]; cbn [tail].
  - split; [done|]. intros e He. discriminate.
  - apply Forall_cons in Hw as [Ho Hscript]. split; [exact Hscript|].
    intros e He. destruct o as [e0|]; [|discriminate]. apply Ho. congruence.
Qed.

Lemma tame_create_task coro : tame (create_task coro).
Proof. intros w Hw. split; [done|]. intros e He. discriminate. Qed.

Lemma tame_add_done_callback task cb : tame (add_done_callback task cb).
Proof. apply tame_modify. reflexivity. Qed.

Lemma tame_subscript payload key : tame (subscript payload key).
Proof.
  unfold subscript. case_match; [apply tame_ret|]. by apply tame_raise.
Qed.

Lemma tame_payload_id payload : tame (payload_id payload).
Proof.
  unfold payload_id. apply tame_bind; [apply tame_subscript|]. intros v.
  case_match; [apply tame_ret|]. by apply tame_raise.
Qed.

Lemma tame_get_client client_id : tame (get_client client_id).
Proof. intros w Hw. split; [done|]. intros e He. discriminate. Qed.

Lemma tame_register_client client_id : tame (register_client client_id).
Proof. intros w Hw. split; [done|]. intros e He. discriminate. Qed.

Lemma tame_track_from client_id request_id request task :
  tame (track_request_from_client client_id request_id request task).
Proof.
  intros w Hw. cbn. unfold SpecManager.track_request_from_client.
  repeat case_match; (split; [done|]); intros e He; cbn in He; by simplify_eq.
Qed.

Lemma tame_get_request_to_client client_id request_id :
  tame (get_request_to_client client_id request_id).
Proof. intros w Hw. split; [done|]. intros e He. discriminate. Qed.

Lemma tame_resolve client_id request_id v :
  tame (resolve_request_to_client client_id request_id v).
Proof.
  intros w Hw. cbn. unfold SpecManager.resolve_request_to_client.
  repeat case_match; (split; [done|]); intros e He; discriminate.
Qed.

Create HintDb tame.

#[local] Hint Resolve tame_ret tame_get_world tame_print tame_transport_send
  tame_create_task tame_add_done_callback tame_subscript tame_payload_id tame_get_client
  tame_register_client tame_track_from tame_get_request_to_client tame_resolve : tame.

Ltac tame_step :=
  first
    [ solve [auto with tame]
    | progress cbv zeta
    | apply tame_bind; [ | intros ?]
    | apply tame_try_except; [ | intros ?]
    | case_match ].

Lemma tame_route_client_message client_message :
  tame (_route_client_message client_message).
Proof.
  unfold _route_client_message, _handle_request, _handle_notification, _handle_response,
    _route_request, _send_error, _ensure_client_registered.
  repeat tame_step.
Qed.

(** On a polite transport, one turn of the loop body always comes back. *)
Lemma message_loop_iteration_returns client_message w :
  polite w ->
  fst (_message_loop_iteration client_message w) = Ok tt
  /\ polite (snd (_message_loop_iteration client_message w)).
Proof.
  intros Hw. unfold _message_loop_iteration, try_except.
  destruct (tame_route_client_message client_message w Hw) as [Hp He].
  destruct (_route_client_message client_message w) as [[[]|e] w1]; cbn [fst snd] in *.
  - done.
  - rewrite (He e eq_refl). done.
Qed.

(** X1. Whatever the clients send, the message loop goes through all of it:
    on a transport whose failures are [Exception]s, the loop over any list of
    messages handles every one of them and comes to its end normally, be the
    messages malformed, of unknown type, duplicates, or answered through a
    transport that refuses the answer. *)
Theorem message_loop_survives_messages messages w :
  polite w ->
  fst (_message_loop_over (map Yield messages) w) = Ok tt
  /\ polite (after (_message_loop_over (map Yield messages)) w)
  /\ after (_message_loop_over (map Yield messages)) w
     = foldl (fun w m => after (_message_loop_iteration m) w) w messages.
Proof.
  revert w. induction messages as [|m messages IH]; intros w Hw; [done|].
  cbn [map _message_loop_over foldl]. unfold after, bind.
  destruct (message_loop_iteration_returns m w Hw) as [Hok Hp].
  destruct (_message_loop_iteration m w) as [r w1]. cbn [fst snd] in *. subst r.
  apply IH, Hp.
Qed.

(** X2. An exception of the transport's stream ends the processing: the
    messages delivered before it have been handled, the failure is printed as
    a transport error, the loop returns, and nothing that the stream would
    have delivered afterwards is handled. *)
Theorem stream_failure_ends_message_loop messages e rest w :
  polite w ->
  is_Exception e = true ->
  let w1 := after (_message_loop_over (map Yield messages)) w in
  _message_loop (map Yield messages ++ StreamRaises e :: rest) w
  = (Ok tt, set_stdout (stdout w1 ++ [Transport_error e]) w1).
Proof.
  intros Hw He w1. subst w1. unfold _message_loop, try_except.
  assert (Hover : _message_loop_over (map Yield messages ++ StreamRaises e :: rest) w
                  = (Raise e, after (_message_loop_over (map Yield messages)) w)).
  { revert w Hw. induction messages as [|m messages IH]; intros w Hw; [done|].
    cbn [map app _message_loop_over]. unfold after, bind.
    destruct (message_loop_iteration_returns m w Hw) as [Hok Hp].
    destruct (_message_loop_iteration m w) as [r w1]. cbn [fst snd] in *. subst r.
    apply IH, Hp. }
  rewrite Hover, He. reflexivity.
Qed.

(** *** Inbound requests *)

Lemma ensure_client_registered_eq client_id w :
  _ensure_client_registered client_id w = (Ok tt, registered client_id w).
Proof.
  unfold _ensure_client_registered, bind, registered.
  cbn [get_client spec_manager SpecManager.manager]. unfold SpecManager.get_client.
  destruct (clients w !! client_id); reflexivity.
Qed.

Lemma registered_entries client_id w :
  (forall c r, inbound_entry (registered client_id w) c r = inbound_entry w c r)
  /\ (forall c r, outbound_entry (registered client_id w) c r = outbound_entry w c r)
  /\ is_Some (clients (registered client_id w) !! client_id).
Proof.
  unfold registered, inbound_entry, outbound_entry.
  destruct (clients w !! client_id) as [c0|] eqn:Hc; cbn [clients set_clients].
  - repeat split; eauto.
  - repeat split; try (rewrite lookup_insert_eq; eauto).
    + intros c r. destruct (decide (client_id = c)) as [->|Hne].
      * by rewrite lookup_insert_eq, Hc.
      * by rewrite lookup_insert_ne.
    + intros c r. destruct (decide (client_id = c)) as [->|Hne].
      * by rewrite lookup_insert_eq, Hc.
      * by rewrite lookup_insert_ne.
Qed.

Lemma iteration_of_request client_id payload request_id w :
  is_valid_request payload = true ->
  json_get "id" payload = Some (id_to_json request_id) ->
  _message_loop_iteration (mkClientMessage client_id payload) w
  = try_except
      (match parse_request payload with
       | inr error => _send_error client_id request_id error
       | inl request => _route_request client_id request_id request
       end)
      is_Exception
      (fun e => print (Error_handling_message_from client_id e))
      (registered client_id w).
Proof.
  intros Hvalid Hid.
  unfold _message_loop_iteration, _route_client_message, try_except.
  cbn [cm_payload cm_client_id]. rewrite Hvalid.
  unfold _handle_request, bind. rewrite (payload_id_eq _ request_id) by done.
  rewrite ensure_client_registered_eq. reflexivity.
Qed.

(** X3. An inbound request that cannot be dispatched, because the parser
    returns an error for it or because no handler is registered for its
    method (then the error is METHOD_NOT_FOUND, -32601, with message
    ["No handler for method: <method>"]), is answered with that error under
    the request's id, and leaves nothing behind: no task is created, no entry
    is tracked, and the coordinator is as running as before.  The sender is
    registered as a client if it was not. *)
Theorem undispatchable_request_is_refused client_id payload request_id error w :
  is_valid_request payload = true ->
  json_get "id" payload = Some (id_to_json request_id) ->
  refusal w payload = Some error ->
  let w' := after (_message_loop_iteration (mkClientMessage client_id payload)) w in
  send_calls w' =
    send_calls w ++
      [mkSendCall client_id
         (JObj [("jsonrpc", JStr "2.0"); ("id", id_to_json request_id);
                ("error", error_to_json error)])
         (next_send w)]
  /\ tasks w' = tasks w
  /\ futures w' = futures w
  /\ (forall c r, inbound_entry w' c r = inbound_entry w c r)
  /\ (forall c r, outbound_entry w' c r = outbound_entry w c r)
  /\ is_Some (clients w' !! client_id)
  /\ running w' = running w.
Proof.
  intros Hvalid Hid Hrefusal w'.
  destruct (registered_entries client_id w) as (Hin & Hout & Hreg).
  assert (Hfields :
    send_calls (registered client_id w) = send_calls w
    /\ send_script (registered client_id w) = send_script w
    /\ tasks (registered client_id w) = tasks w
    /\ futures (registered client_id w) = futures w
    /\ _request_handlers (registered client_id w) = _request_handlers w
    /\ _message_loop_task (registered client_id w) = _message_loop_task w).
  { unfold registered. by destruct (clients w !! client_id). }
  destruct Hfields as (Hcalls & Hscript & Htasks & Hfutures & Hhandlers & Hloop).
  assert (Hw' : exists out,
             w' = set_stdout out
                    (sent client_id (to_wire (JSONRPCError error request_id))
                          (registered client_id w))).
  { subst w'. unfold after.
    rewrite (iteration_of_request _ _ request_id) by done.
    assert (Hbody : (match parse_request payload with
                     | inr error => _send_error client_id request_id error
                     | inl request => _route_request client_id request_id request
                     end) (registered client_id w)
                    = _send_error client_id request_id error (registered client_id w)).
    { unfold refusal in Hrefusal. destruct (parse_request payload) as [request|error'].
      - unfold _route_request, bind, get_world. rewrite Hhandlers.
        destruct (_request_handlers w !! method request); [discriminate|].
        by simplify_eq.
      - by simplify_eq. }
    unfold try_except. rewrite Hbody, _send_error_eq.
    destruct (next_send (registered client_id w)) as [e|].
    - destruct (is_Exception e); unfold print, modify; cbn [snd]; [by eexists|].
      match goal with |- exists out, ?x = _ => exists (stdout x); by destruct x end.
    - cbn [snd].
      match goal with |- exists out, ?x = _ => exists (stdout x); by destruct x end. }
  destruct Hw' as (out & ->). unfold sent, next_send, running, inbound_entry, outbound_entry.
  cbn [send_calls tasks futures clients set_stdout set_transport _message_loop_task].
  rewrite Hcalls, Hscript, Htasks, Hfutures, Hloop.
  split; [done|]. split; [done|]. split; [done|].
  split; [exact Hin|]. split; [exact Hout|]. split; [exact Hreg|done].
Qed.

Lemma world_eta w : set_stdout (stdout w) w = w.
Proof. by destruct w. Qed.

Lemma untrack_from_entries client_id request_id w c r :
  inbound_entry (snd (untrack_request_from_client client_id request_id w)) c r
  = if decide (c = client_id /\ r = request_id) then None else inbound_entry w c r.
Proof.
  cbn [untrack_request_from_client spec_manager SpecManager.manager].
  unfold SpecManager.untrack_request_from_client, inbound_entry.
  destruct (clients w !! client_id) as [c0|] eqn:Hc; cbn [snd clients set_clients].
  - destruct (decide (c = client_id)) as [->|Hne].
    + rewrite lookup_insert_eq, Hc. cbn.
      destruct (decide (r = request_id)) as [->|Hr].
      * rewrite decide_True by done. apply lookup_delete_eq.
      * rewrite decide_False by (intros [_ ?]; done). by apply lookup_delete_ne.
    + rewrite lookup_insert_ne by done. by rewrite decide_False by (intros [? _]; done).
  - destruct (decide (c = client_id /\ r = request_id)) as [[-> _]|_]; [|done].
    by rewrite Hc.
Qed.

Lemma run_done_callbacks_entries cbs w c r :
  inbound_entry (snd (run_done_callbacks cbs w)) c r
  = if decide (untrack_callback c r ∈ cbs) then None else inbound_entry w c r.
Proof.
  revert w. induction cbs as [|[client_id request_id] cbs IH]; intros w.
  - cbn. rewrite decide_False; [done|]. apply not_elem_of_nil.
  - cbn [run_done_callbacks run_done_callback]. unfold bind at 1.
    unfold call_ready, try_except, bind.
    pose proof (untrack_from_entries client_id request_id w c r) as Hu.
    destruct (untrack_from_only_clients client_id request_id w) as (r0 & cs & Heq).
    rewrite Heq in Hu |- *. unfold ret. cbn [snd] in Hu. rewrite IH, Hu.
    repeat case_decide; try done;
      repeat match goal with
             | H : _ ∈ _ :: _ |- _ => apply elem_of_cons in H
             | H : ~ _ ∈ _ :: _ |- _ => apply not_elem_of_cons in H
             end;
      exfalso; intuition (simplify_eq; auto).
Qed.

Lemma same_callbacks_refl w : same_callbacks w w.
Proof. by split. Qed.

Lemma same_callbacks_trans w1 w2 w3 :
  same_callbacks w1 w2 -> same_callbacks w2 w3 -> same_callbacks w1 w3.
Proof. unfold same_callbacks. intros [? ?] [? ?]. split; congruence. Qed.

Lemma cancel_in_callbacks task ts :
  map task_callbacks (cancel_in task ts) = map task_callbacks ts
  /\ map task_coro (cancel_in task ts) = map task_coro ts.
Proof.
  unfold cancel_in. revert task. induction ts as [|t ts IH]; intros [|task]; cbn; try done.
  - by destruct (task_done (task_state t)).
  - destruct (IH task) as [-> ->]. done.
Qed.

Lemma cancel_all_callbacks entries ts :
  map task_callbacks (SpecManager.cancel_all entries ts) = map task_callbacks ts
  /\ map task_coro (SpecManager.cancel_all entries ts) = map task_coro ts.
Proof.
  induction entries as [|entry entries IH]; [done|].
  cbn [SpecManager.cancel_all foldr].
  destruct (cancel_in_callbacks (snd (snd entry))
              (foldr (fun entry acc => cancel_in (snd (snd entry)) acc) ts entries))
    as [-> ->].
  exact IH.
Qed.

Lemma keeps_callbacks_execute handler client_id request_id request :
  keeps same_callbacks (_execute_request_handler handler client_id request_id request).
Proof.
  assert (Hsend : forall c p, keeps same_callbacks (transport_send c p)).
  { intros c p w. rewrite transport_send_eq. by split. }
  assert (Hclean : keeps same_callbacks (cleanup_client client_id)).
  { intros w. rewrite cleanup_client_eq. cbn [snd]. unfold SpecManager.teardown.
    destruct (clients w !! client_id) as [c|]; [|by split].
    unfold same_callbacks. cbn [tasks set_clients set_futures set_tasks].
    apply cancel_all_callbacks. }
  unfold _execute_request_handler, _send_error.
  apply keeps_try_except; [exact same_callbacks_trans| |intros e; apply Hsend].
  apply keeps_bind; [exact same_callbacks_trans| |intros [result|error]].
  - apply keeps_await_outcome. exact same_callbacks_refl.
  - cbv zeta. apply keeps_bind; [exact same_callbacks_trans|apply Hsend|intros _].
    apply keeps_ret. exact same_callbacks_refl.
  - cbv zeta. apply keeps_bind; [exact same_callbacks_trans|apply Hsend|intros _].
    case_match; [exact Hclean|]. apply keeps_ret. exact same_callbacks_refl.
Qed.

Lemma same_callbacks_lookup w w' task t :
  same_callbacks w w' ->
  tasks w !! task = Some t ->
  exists t', tasks w' !! task = Some t'
             /\ task_callbacks t' = task_callbacks t /\ task_coro t' = task_coro t.
Proof.
  intros [Hcb Hco] Ht.
  assert (H1 : map task_callbacks (tasks w') !! task = Some (task_callbacks t)).
  { rewrite Hcb, list_lookup_fmap, Ht. done. }
  assert (H2 : map task_coro (tasks w') !! task = Some (task_coro t)).
  { rewrite Hco, list_lookup_fmap, Ht. done. }
  rewrite list_lookup_fmap in H1. rewrite list_lookup_fmap in H2.
  destruct (tasks w' !! task) as [t'|]; [|discriminate].
  exists t'. cbn in *. split; [done|]. split; congruence.
Qed.

(** The turn of a pending task ends in [task_finishes] with a state in which
    the task is done, in the world its coroutine left, some output apart. *)
Lemma run_task_pending task coro cbs w :
  tasks w !! task = Some (mkTask coro TaskPending cbs) ->
  exists s out,
    task_done s = true
    /\ run_task task w
       = task_finishes task s (set_stdout out (snd (run_coroutine coro w)))
    /\ (forall e, s = TaskFailed e -> fst (run_coroutine coro w) = Raise e)
    /\ (fst (run_coroutine coro w) = Ok tt ->
        out = stdout (snd (run_coroutine coro w))).
Proof.
  intros Ht. unfold run_task, task_turn, bind, get_world, outcome_of. rewrite Ht.
  cbn [task_state task_coro].
  destruct (run_coroutine coro w) as [[[]|e] w1]; cbn [fst snd].
  - destruct (task_state <$> tasks w1 !! task) as [[]|];
      eexists _, (stdout w1); rewrite world_eta;
      (split; [|split; [reflexivity|split; [intros; discriminate|done]]]); done.
  - destruct (is_CancelledError e) eqn:Hc.
    + exists TaskCancelled, (stdout w1). rewrite world_eta.
      split; [done|]. split; [done|]. split; [intros; discriminate|intros; discriminate].
    + exists (TaskFailed e), (stdout w1). rewrite world_eta.
      split; [done|]. split; [done|].
      split; [intros e' He'; by simplify_eq|intros; discriminate].
Qed.

(** X4. An inbound request that can be dispatched and whose id is not in the
    client's inbound table is accepted without a word on the wire: one task
    is created for the handler, pending, with the done-callback that untracks
    the request; the request is tracked under its id with that task; every
    other entry is as before. *)
Theorem dispatched_request_is_tracked client_id payload request_id request handler w :
  is_valid_request payload = true ->
  json_get "id" payload = Some (id_to_json request_id) ->
  parse_request payload = inl request ->
  _request_handlers w !! method request = Some handler ->
  inbound_entry w client_id request_id = None ->
  let w' := after (_message_loop_iteration (mkClientMessage client_id payload)) w in
  fst (_message_loop_iteration (mkClientMessage client_id payload) w) = Ok tt
  /\ tasks w' =
       tasks w ++
         [mkTask (execute_request_handler_coro handler client_id request_id request)
                 TaskPending [untrack_callback client_id request_id]]
  /\ inbound_entry w' client_id request_id = Some (request, length (tasks w))
  /\ (forall c r, (c, r) <> (client_id, request_id) ->
                  inbound_entry w' c r = inbound_entry w c r)
  /\ (forall c r, outbound_entry w' c r = outbound_entry w c r)
  /\ send_calls w' = send_calls w
  /\ stdout w' = stdout w.
Proof.
  intros Hvalid Hid Hparse Hhandler Hfresh w'. subst w'. unfold after.
  rewrite (iteration_of_request _ _ request_id) by done. rewrite Hparse.
  destruct (registered_entries client_id w) as (Hin & Hout & [c Hc]).
  assert (Hfields :
    send_calls (registered client_id w) = send_calls w
    /\ stdout (registered client_id w) = stdout w
    /\ tasks (registered client_id w) = tasks w
    /\ _request_handlers (registered client_id w) = _request_handlers w).
  { unfold registered. by destruct (clients w !! client_id). }
  destruct Hfields as (Hcalls & Hstdout & Htasks & Hhandlers).
  pose proof (Hin client_id request_id) as Hfresh'. rewrite Hfresh in Hfresh'.
  unfold inbound_entry in Hfresh'. rewrite Hc in Hfresh'. cbn in Hfresh'.
  unfold try_except, _route_request, bind, get_world. rewrite Hhandlers, Hhandler.
  unfold create_task.
  cbn [track_request_from_client spec_manager SpecManager.manager].
  unfold SpecManager.track_request_from_client.
  cbn [clients set_tasks]. rewrite Hc, Hfresh'. unfold add_done_callback, modify.
  cbn [fst snd tasks set_tasks set_clients send_calls stdout clients].
  rewrite Htasks, Hcalls, Hstdout.
  split; [done|]. split.
  { rewrite alter_app_r_alt by done. rewrite Nat.sub_diag. reflexivity. }
  split.
  { unfold inbound_entry. cbn [clients set_tasks set_clients]. rewrite lookup_insert_eq. cbn.
    apply lookup_insert_eq. }
  split.
  { intros c0 r Hne. rewrite <- Hin. unfold inbound_entry. cbn [clients set_tasks set_clients].
    destruct (decide (c0 = client_id)) as [->|Hc0].
    - rewrite lookup_insert_eq, Hc. cbn.
      apply lookup_insert_ne. congruence.
    - by rewrite lookup_insert_ne. }
  split; [|done].
  intros c0 r. rewrite <- Hout. unfold outbound_entry. cbn [clients set_tasks set_clients].
  destruct (decide (c0 = client_id)) as [->|Hc0].
  - by rewrite lookup_insert_eq, Hc.
  - by rewrite lookup_insert_ne.
Qed.

(** X5. When the event loop runs a pending handler task that carries the
    done-callback of its request, and calls the done-callbacks of the task
    ([run_task]), the request is untracked whatever happens:
    whether the handler returns a result or an error or raises, and whatever
    the transport does with the response, the task ends done and the inbound
    entry of the request is gone.  If the handler returns a result and the
    transport accepts it, the one frame sent is the JSON-RPC response with
    that result under the request's id, and nothing is printed. *)
Theorem handler_task_answers_and_untracks
    task handler client_id request_id request cbs w :
  tasks w !! task
    = Some (mkTask (execute_request_handler_coro handler client_id request_id request)
                   TaskPending cbs) ->
  untrack_callback client_id request_id ∈ cbs ->
  let w' := after (run_task task) w in
  inbound_entry w' client_id request_id = None
  /\ (exists t, tasks w' !! task = Some t /\ task_done (task_state t) = true)
  /\ (forall result,
        handler client_id request = Ok (inl result) ->
        next_send w = None ->
        send_calls w' =
          send_calls w ++
            [mkSendCall client_id
               (JObj [("jsonrpc", JStr "2.0"); ("id", id_to_json request_id);
                      ("result", r_value result)])
               None]
        /\ stdout w' = stdout w).
Proof.
  intros Ht Hcb w'. subst w'. unfold after.
  destruct (run_task_pending _ _ _ _ Ht) as (s & out & Hdone & -> & _ & Hout).
  cbn [run_coroutine] in *.
  set (w1 := snd (_execute_request_handler handler client_id request_id request w)) in *.
  destruct (same_callbacks_lookup w w1 task _
              (keeps_callbacks_execute handler client_id request_id request w) Ht)
    as (t1 & Ht1 & Hcbs1 & Hcoro1).
  cbn [task_callbacks task_coro] in *.
  unfold task_finishes, bind, modify, get_world.
  set (w2 := set_task_state task s (set_stdout out w1)).
  assert (Ht2 : tasks w2 !! task = Some (mkTask (task_coro t1) s (task_callbacks t1))).
  { subst w2. unfold set_task_state. cbn [tasks set_tasks set_stdout].
    rewrite list_lookup_alter_eq, Ht1. done. }
  rewrite Ht2. cbn [task_callbacks]. rewrite Hcbs1.
  split.
  { rewrite run_done_callbacks_entries. by rewrite decide_True. }
  destruct (run_done_callbacks_only_clients cbs w2) as (cs & Hrun).
  rewrite Hrun. cbn [snd tasks set_clients].
  split; [by eexists|].
  intros result Hh Hs.
  assert (Hexec : _execute_request_handler handler client_id request_id request w
                  = (Ok tt, sent client_id (to_wire (JSONRPCResponse result request_id)) w)).
  { unfold _execute_request_handler, try_except, bind, await_outcome.
    rewrite Hh, transport_send_eq, Hs. reflexivity. }
  subst w2 w1. rewrite Hexec in *. cbn [fst snd] in *.
  rewrite (Hout eq_refl).
  cbn [send_calls stdout set_clients set_task_state set_tasks set_stdout].
  unfold sent. cbn [send_calls stdout set_transport]. by rewrite Hs.
Qed.

(** *** Cancelling an inbound request *)

Lemma untrack_from_absent client_id request_id w :
  inbound_entry w client_id request_id = None ->
  untrack_request_from_client client_id request_id w = (Ok None, w).
Proof.
  intros Habs. cbn [untrack_request_from_client spec_manager SpecManager.manager].
  unfold SpecManager.untrack_request_from_client, inbound_entry in *.
  destruct (clients w !! client_id) as [c|] eqn:Hc; [|done]. cbn in Habs.
  rewrite Habs, delete_id by done.
  assert (Hcs : SpecManager.with_inbound (requests_from_client c) c = c) by by destruct c.
  rewrite Hcs, insert_id by done. by destruct w.
Qed.

(** X6. [cancel_request_from_client] on a request that is tracked with a
    pending task returns [True]: the entry is removed and cancellation of the
    task is requested, with nothing sent.  Asking again returns [False] and
    changes nothing.  When the event loop next gives the task its turn, the
    task ends cancelled without running its handler: no response is ever
    sent for the request and nothing is printed. *)
Theorem cancelled_request_never_answers client_id request_id request task coro cbs w :
  inbound_entry w client_id request_id = Some (request, task) ->
  tasks w !! task = Some (mkTask coro TaskPending cbs) ->
  let w1 := after (cancel_request_from_client client_id request_id) w in
  let w2 := after (run_task task) w1 in
  fst (cancel_request_from_client client_id request_id w) = Ok true
  /\ inbound_entry w1 client_id request_id = None
  /\ tasks w1 !! task = Some (mkTask coro TaskCancelling cbs)
  /\ send_calls w1 = send_calls w
  /\ cancel_request_from_client client_id request_id w1 = (Ok false, w1)
  /\ tasks w2 !! task = Some (mkTask coro TaskCancelled cbs)
  /\ send_calls w2 = send_calls w
  /\ stdout w2 = stdout w.
Proof.
  intros Hentry Htask w1 w2.
  assert (Hw1 : exists cs,
            cancel_request_from_client client_id request_id w
            = (Ok true, set_tasks (cancel_in task (tasks w)) (set_clients cs w))
            /\ inbound_entry (set_clients cs w) client_id request_id = None).
  { unfold cancel_request_from_client, bind.
    pose proof (untrack_from_entries client_id request_id w client_id request_id) as Hgone.
    rewrite decide_True in Hgone by done.
    cbn [untrack_request_from_client spec_manager SpecManager.manager] in *.
    unfold SpecManager.untrack_request_from_client in *. unfold inbound_entry in Hentry.
    destruct (clients w !! client_id) as [c|] eqn:Hc; [|discriminate].
    cbn in Hentry. rewrite Hentry. cbn [snd] in Hgone.
    unfold task_cancel. cbn [tasks set_clients]. rewrite Htask. cbn [task_state task_done negb].
    eexists. split; [reflexivity|exact Hgone]. }
  destruct Hw1 as (cs & Hcancel & Hgone).
  assert (Ht1 : tasks w1 !! task = Some (mkTask coro TaskCancelling cbs)).
  { subst w1. unfold after. rewrite Hcancel. cbn [snd tasks set_tasks].
    unfold cancel_in. rewrite list_lookup_alter_eq. cbn [tasks set_clients].
    rewrite Htask. reflexivity. }
  assert (Hgone1 : inbound_entry w1 client_id request_id = None).
  { subst w1. unfold after. rewrite Hcancel. exact Hgone. }
  split; [by rewrite Hcancel|]. split; [exact Hgone1|]. split; [exact Ht1|].
  split; [subst w1; unfold after; by rewrite Hcancel|].
  split.
  { unfold cancel_request_from_client, bind.
    by rewrite (untrack_from_absent _ _ _ Hgone1). }
  subst w2. unfold after, run_task, task_turn, bind, get_world. rewrite Ht1.
  cbn [task_state].
  destruct (task_finishes_only_clients task TaskCancelled w1) as (cs' & ->).
  cbn [snd tasks send_calls stdout set_clients set_task_state set_tasks].
  rewrite list_lookup_alter_eq, Ht1.
  split; [done|]. subst w1. unfold after. rewrite Hcancel. done.
Qed.

(** *** Responses *)

Lemma iteration_of_response client_id payload request_id w :
  is_valid_request payload = false ->
  is_valid_notification payload = false ->
  is_valid_response payload = true ->
  json_get "id" payload = Some (id_to_json request_id) ->
  _message_loop_iteration (mkClientMessage client_id payload) w
  = match outbound_entry w client_id request_id with
    | None =>
        (Ok tt, set_stdout (stdout w ++ [No_pending_request_for_client request_id client_id]) w)
    | Some (original_request, future) =>
        resolve_request_to_client client_id request_id
          (parse_response payload original_request) w
    end.
Proof.
  intros Hreq Hnotif Hresp Hid.
  unfold _message_loop_iteration, _route_client_message, try_except.
  cbn [cm_payload cm_client_id]. rewrite Hreq, Hnotif, Hresp.
  unfold _handle_response, bind. rewrite (payload_id_eq _ request_id) by done.
  cbn [get_request_to_client spec_manager SpecManager.manager].
  unfold SpecManager.get_request_to_client. fold (outbound_entry w client_id request_id).
  destruct (outbound_entry w client_id request_id) as [[original_request future]|] eqn:He.
  - cbn [resolve_request_to_client spec_manager SpecManager.manager].
    unfold SpecManager.resolve_request_to_client. unfold outbound_entry in He.
    destruct (clients w !! client_id) as [c|]; [|discriminate]. cbn in He. by rewrite He.
  - reflexivity.
Qed.

(** X7. A response whose id matches no outbound request of the client that
    sent it is dropped: one line is printed and nothing else changes.  No
    frame is sent, no future is resolved, no entry of any client is touched;
    so a response cannot resolve a request that was sent to another client,
    even under the same id. *)
Theorem unmatched_response_is_dropped client_id payload request_id w :
  is_valid_request payload = false ->
  is_valid_notification payload = false ->
  is_valid_response payload = true ->
  json_get "id" payload = Some (id_to_json request_id) ->
  outbound_entry w client_id request_id = None ->
  _message_loop_iteration (mkClientMessage client_id payload) w
  = (Ok tt,
     set_stdout (stdout w ++ [No_pending_request_for_client request_id client_id]) w).
Proof.
  intros Hreq Hnotif Hresp Hid Habs.
  rewrite (iteration_of_response _ _ request_id) by done. by rewrite Habs.
Qed.

(** X8. The round trip of an outbound request.  On a running coordinator
    whose transport accepts the request, if the message loop handles the
    client's response to that request id while [send_request] waits, then
    [send_request] returns what the parser makes of the response for the
    original request (a [Result], or an [Error] as a value, not as an
    exception), whatever the timer does afterwards.  The only frame sent is
    the request, and the outbound entry is gone. *)
Theorem response_resolves_send_request client_id request uuid payload wake w :
  running w = true ->
  next_send w = None ->
  is_valid_request payload = false ->
  is_valid_notification payload = false ->
  is_valid_response payload = true ->
  json_get "id" payload = Some (JStr uuid) ->
  let delivered := after (_message_loop_iteration (mkClientMessage client_id payload)) in
  let w' := after (send_request client_id request uuid delivered wake) w in
  fst (send_request client_id request uuid delivered wake w)
    = Ok (parse_response payload request)
  /\ send_calls w' =
       send_calls w ++
         [mkSendCall client_id (to_wire (JSONRPCRequest request (inl uuid))) None]
  /\ outbound_entry w' client_id (inl uuid) = None
  /\ stdout w' = stdout w.
Proof.
  intros Hr Hs Hreq Hnotif Hresp Hid delivered w'. subst w'. unfold after.
  rewrite (send_request_running _ _ _ _ _ _ Hr).
  match goal with |- context [try_finally ?b _ ?x] =>
    destruct (finally_untracked b client_id (inl uuid) x) as (Hgone & Hfst & Hcalls) end.
  unfold after in *. rewrite Hfst, Hcalls. clear Hfst Hcalls.
  set (w0 := sent client_id (to_wire (JSONRPCRequest request (inl uuid)))
                  (tracked client_id request uuid w)).
  set (future := length (futures w)).
  assert (Hdelivered :
            delivered w0
            = set_futures (resolve_in future (parse_response payload request) (futures w0))
                (set_clients
                   (<[client_id :=
                        SpecManager.with_outbound
                          (delete (inl uuid)
                             (requests_to_client
                                (default SpecManager.empty_client (clients w0 !! client_id))))
                          (default SpecManager.empty_client (clients w0 !! client_id))]>
                      (clients w0)) w0)).
  { subst delivered. unfold after.
    rewrite (iteration_of_response _ _ (inl uuid)) by done.
    assert (He : outbound_entry w0 client_id (inl uuid) = Some (request, future))
      by apply tracked_entry.
    rewrite He. cbn [resolve_request_to_client spec_manager SpecManager.manager].
    unfold SpecManager.resolve_request_to_client. unfold outbound_entry in He.
    destruct (clients w0 !! client_id) as [c|]; [|discriminate]. cbn in He.
    rewrite He. reflexivity. }
  match goal with |- context [try_except ?b ?c ?h ?x] =>
    assert (Hbody : exists w3, try_except b c h x = (Ok (parse_response payload request), w3)
                               /\ send_calls w3 = send_calls w0
                               /\ stdout w3 = stdout w0) end.
  { unfold try_except, bind. rewrite transport_send_eq.
    assert (Hn : next_send (tracked client_id request uuid w) = None) by exact Hs.
    rewrite Hn. unfold modify. cbv beta iota. fold w0. rewrite Hdelivered.
    unfold wait_for. cbn [futures set_futures].
    assert (Hf : resolve_in future (parse_response payload request) (futures w0) !! future
                 = Some (FutureResolved (parse_response payload request))).
    { unfold resolve_in. rewrite list_lookup_alter_eq.
      subst w0. unfold sent, tracked. cbn [futures set_transport set_clients set_futures].
      subst future. rewrite lookup_app_r by done. by rewrite Nat.sub_diag. }
    rewrite Hf. eexists. split; [reflexivity|]. done. }
  destruct Hbody as (w3 & Hbody & Hc3 & Ho3).
  assert (Hw0 : send_calls w0 =
                  send_calls w ++
                    [mkSendCall client_id (to_wire (JSONRPCRequest request (inl uuid))) None]
                /\ stdout w0 = stdout w).
  { subst w0. unfold sent. cbn [send_calls stdout set_transport].
    assert (Hn : next_send (tracked client_id request uuid w) = None) by exact Hs.
    by rewrite Hn. }
  destruct Hw0 as (Hcalls0 & Hout0).
  split; [by rewrite Hbody|].
  split; [rewrite Hbody; cbn [snd]; by rewrite Hc3|].
  split; [exact Hgone|].
  unfold try_finally. rewrite Hbody.
  destruct (untrack_to_removes client_id (inl uuid) w3) as (cs & -> & _).
  cbn [snd stdout set_clients]. by rewrite Ho3.
Qed.

(** *** One client at a time *)

Lemma only_client_refl client_id w : only_client client_id w w.
Proof. split; [done|]. exists []. by rewrite app_nil_r. Qed.

Lemma only_client_trans client_id w1 w2 w3 :
  only_client client_id w1 w2 -> only_client client_id w2 w3 -> only_client client_id w1 w3.
Proof.
  intros [Hc1 (l1 & Hs1 & Hf1)] [Hc2 (l2 & Hs2 & Hf2)]. split.
  - intros c Hne. by rewrite Hc2, Hc1.
  - exists (l1 ++ l2). split; [by rewrite Hs2, Hs1, app_assoc|]. by apply Forall_app.
Qed.

Lemma only_client_quiet client_id w w' :
  (forall c, c <> client_id -> clients w' !! c = clients w !! c) ->
  send_calls w' = send_calls w ->
  only_client client_id w w'.
Proof. intros Hc Hs. split; [exact Hc|]. exists []. by rewrite app_nil_r. Qed.

Ltac quiet := intros ?w; apply only_client_quiet; [by intros|done].

Ltac quiet_manager :=
  intros ?w; cbn;
  unfold SpecManager.get_client, SpecManager.register_client, modify,
    SpecManager.track_request_from_client, SpecManager.untrack_request_from_client,
    SpecManager.track_request_to_client, SpecManager.untrack_request_to_client,
    SpecManager.get_request_to_client, SpecManager.resolve_request_to_client;
  repeat case_match; simplify_eq; cbn [snd];
  (apply only_client_quiet; [|done]);
  intros ?c ?Hne; cbn [clients set_clients set_futures]; try done;
  by rewrite lookup_insert_ne.

Lemma oc_print client_id line : keeps (only_client client_id) (print line).
Proof. quiet. Qed.
Lemma oc_create_task client_id coro : keeps (only_client client_id) (create_task coro).
Proof. quiet. Qed.
Lemma oc_add_done_callback client_id task cb :
  keeps (only_client client_id) (add_done_callback task cb).
Proof. quiet. Qed.
Lemma oc_new_future client_id : keeps (only_client client_id) new_future.
Proof. quiet. Qed.
Lemma oc_self_running client_id : keeps (only_client client_id) self_running.
Proof. quiet. Qed.
Lemma oc_task_cancel client_id task : keeps (only_client client_id) (task_cancel task).
Proof. intros w. unfold task_cancel. destruct (tasks w !! task); by apply only_client_quiet. Qed.
Lemma oc_wait_for client_id future wake : keeps (only_client client_id) (wait_for future wake).
Proof. intros w. unfold wait_for. repeat case_match; by apply only_client_quiet. Qed.
Lemma oc_subscript client_id payload key : keeps (only_client client_id) (subscript payload key).
Proof. intros w. unfold subscript. case_match; by apply only_client_quiet. Qed.

Lemma oc_transport_send client_id payload :
  keeps (only_client client_id) (transport_send client_id payload).
Proof.
  intros w. rewrite transport_send_eq. cbn [snd]. split; [done|].
  eexists. split; [reflexivity|]. by apply Forall_singleton.
Qed.

Lemma oc_get_client client_id : keeps (only_client client_id) (get_client client_id).
Proof. quiet_manager. Qed.
Lemma oc_register_client client_id : keeps (only_client client_id) (register_client client_id).
Proof. quiet_manager. Qed.
Lemma oc_track_from client_id request_id request task :
  keeps (only_client client_id) (track_request_from_client client_id request_id request task).
Proof. quiet_manager. Qed.
Lemma oc_untrack_from client_id request_id :
  keeps (only_client client_id) (untrack_request_from_client client_id request_id).
Proof. quiet_manager. Qed.
Lemma oc_track_to client_id request_id request future :
  keeps (only_client client_id) (track_request_to_client client_id request_id request future).
Proof. quiet_manager. Qed.
Lemma oc_untrack_to client_id request_id :
  keeps (only_client client_id) (untrack_request_to_client client_id request_id).
Proof. quiet_manager. Qed.
Lemma oc_get_request_to_client client_id request_id :
  keeps (only_client client_id) (get_request_to_client client_id request_id).
Proof. quiet_manager. Qed.
Lemma oc_resolve client_id request_id v :
  keeps (only_client client_id) (resolve_request_to_client client_id request_id v).
Proof. quiet_manager. Qed.

Lemma oc_cleanup_client client_id : keeps (only_client client_id) (cleanup_client client_id).
Proof.
  intros w. rewrite cleanup_client_eq. cbn [snd]. apply only_client_quiet.
  - intros c Hne. rewrite teardown_clients. by apply lookup_delete_ne.
  - apply teardown_transport.
Qed.

Create HintDb only_client.

#[local] Hint Resolve oc_print oc_create_task oc_add_done_callback oc_new_future
  oc_self_running oc_task_cancel oc_wait_for oc_subscript oc_transport_send oc_get_client
  oc_register_client oc_track_from oc_untrack_from oc_track_to oc_untrack_to
  oc_get_request_to_client oc_resolve oc_cleanup_client : only_client.

Ltac oc_step :=
  first
    [ solve [auto with only_client]
    | progress cbv zeta
    | apply keeps_ret; apply only_client_refl
    | apply keeps_raise; apply only_client_refl
    | apply keeps_get_world; apply only_client_refl
    | apply keeps_await_outcome; apply only_client_refl
    | apply keeps_modify; intros ?; apply only_client_quiet; [by intros|done]
    | apply keeps_bind; [apply only_client_trans | | intros ?]
    | apply keeps_try_except; [apply only_client_trans | | intros ?]
    | apply keeps_try_finally; [apply only_client_trans | | ]
    | case_match ].

(** X9. The coordinator serves one client at a time.  Handling a message of
    a client, running the handler of one of its requests, sending it a
    request or a notification, and cancelling one of its requests leave the
    state of every other client as it is, and every frame they hand to the
    transport is addressed to that client. *)
Theorem one_client_at_a_time client_id :
  (forall payload,
      keeps (only_client client_id)
            (_message_loop_iteration (mkClientMessage client_id payload)))
  /\ (forall handler request_id request,
        keeps (only_client client_id)
              (_execute_request_handler handler client_id request_id request))
  /\ (forall request uuid wake,
        keeps (only_client client_id)
              (send_request client_id request uuid (fun w => w) wake))
  /\ (forall notification,
        keeps (only_client client_id) (send_notification client_id notification))
  /\ (forall request_id,
        keeps (only_client client_id) (cancel_request_from_client client_id request_id)).
Proof.
  split; [|split; [|split; [|split]]].
  - intros payload.
    unfold _message_loop_iteration, _route_client_message, _handle_request,
      _handle_notification, _handle_response, _route_request, _send_error,
      _ensure_client_registered, payload_id.
    cbn [cm_payload cm_client_id]. repeat oc_step.
  - intros handler request_id request.
    unfold _execute_request_handler, _send_error. repeat oc_step.
  - intros request uuid wake.
    unfold send_request, _ensure_client_registered, _handle_request_timeout,
      send_notification.
    repeat oc_step.
  - intros notification. unfold send_notification. repeat oc_step.
  - intros request_id. unfold cancel_request_from_client. repeat oc_step.
Qed.

(** *** Starting and stopping *)

Lemma stop_leaves_idle w : running (after stop w) = false.
Proof.
  destruct (running w) eqn:Hr.
  - destruct (stop_running w Hr) as (w' & Hs & Hc & Hl).
    unfold after. rewrite Hs. cbn [snd]. unfold running. by rewrite Hl.
  - unfold after. by rewrite (stop_idle w Hr).
Qed.

(** X10. [start] and [stop] are safe to call repeatedly and in any order.
    [start] on a running coordinator and [stop] on one that is not running
    change nothing; after [start] the coordinator runs, with its clients
    untouched; after [stop] it does not run and a second [stop] changes
    nothing; and a stopped coordinator can be started again. *)
Theorem start_and_stop_are_idempotent w :
  (running w = true -> start w = (Ok tt, w))
  /\ (running w = false -> stop w = (Ok tt, w))
  /\ running (after start w) = true
  /\ clients (after start w) = clients w
  /\ start (after start w) = (Ok tt, after start w)
  /\ running (after stop w) = false
  /\ stop (after stop w) = (Ok tt, after stop w)
  /\ running (after start (after stop w)) = true.
Proof.
  assert (Hstart : forall w0, running w0 = true -> start w0 = (Ok tt, w0)).
  { intros w0 Hr. unfold start, bind, self_running. by rewrite Hr. }
  assert (Hstarted : forall w0,
            running (after start w0) = true /\ clients (after start w0) = clients w0).
  { intros w0. unfold after, start, bind, self_running.
    destruct (running w0) eqn:Hr; cbn [snd]; done. }
  assert (Hidle : running (after stop w) = false) by apply stop_leaves_idle.
  split; [apply Hstart|]. split; [apply stop_idle|].
  split; [apply Hstarted|]. split; [apply Hstarted|].
  split; [apply Hstart, Hstarted|]. split; [exact Hidle|].
  split; [by apply stop_idle|]. apply Hstarted.
Qed.

(** X11. A coordinator that is not running sends nothing.  After [stop],
    after the end of the message loop, and before the first [start],
    [send_request] and [send_notification] raise the runtime error for a
    coordinator that is not running, and the world is untouched: no client is
    registered, no entry is tracked, no future is allocated and the transport
    is not called. *)
Theorem stopped_coordinator_refuses_to_send
    w cause script client_id request uuid suspended wake notification :
  let refused w' :=
    send_request client_id request uuid suspended wake w'
      = (Raise (RuntimeError "Cannot send request: coordinator is not running"), w')
    /\ send_notification client_id notification w'
       = (Raise (RuntimeError "Cannot send notification: coordinator is not running"), w') in
  refused (after stop w)
  /\ refused (after (message_loop_ends cause) w)
  /\ refused (initial_world script).
Proof.
  intros refused.
  assert (Hidle : forall w', running w' = false -> refused w').
  { intros w' Hr. subst refused. cbv beta.
    unfold send_request, send_notification, bind, self_running. by rewrite Hr. }
  split; [|split].
  - apply Hidle. apply stop_leaves_idle.
  - apply Hidle. destruct (message_loop_ends_eq cause w) as (final & out & Hd & Hs).
    unfold after. rewrite Hs. cbn [snd]. unfold running.
    cbn [_message_loop_task set_ready set_message_loop_task]. by rewrite Hd.
  - by apply Hidle.
Qed.

(** *** Outbound requests side by side *)

Lemma same_clients_refl w : same_clients w w.
Proof. done. Qed.

Lemma same_clients_trans w1 w2 w3 :
  same_clients w1 w2 -> same_clients w2 w3 -> same_clients w1 w3.
Proof. unfold same_clients. congruence. Qed.

Lemma untrack_to_entries client_id request_id w :
  (forall c r,
      outbound_entry (snd ((untrack_request_to_client client_id request_id ;; ret tt) w)) c r
      = if decide (c = client_id /\ r = request_id) then None else outbound_entry w c r)
  /\ (forall c r,
        inbound_entry (snd ((untrack_request_to_client client_id request_id ;; ret tt) w)) c r
        = inbound_entry w c r).
Proof.
  unfold bind. cbn [untrack_request_to_client spec_manager SpecManager.manager].
  unfold SpecManager.untrack_request_to_client, inbound_entry, outbound_entry.
  destruct (clients w !! client_id) as [c0|] eqn:Hc; cbn [snd ret clients set_clients].
  - split; intros c r.
    + destruct (decide (c = client_id)) as [->|Hne].
      * rewrite lookup_insert_eq, Hc. cbn.
        destruct (decide (r = request_id)) as [->|Hr].
        -- rewrite decide_True by done. apply lookup_delete_eq.
        -- rewrite decide_False by (intros [_ ?]; done). by apply lookup_delete_ne.
      * rewrite lookup_insert_ne by done. by rewrite decide_False by (intros [? _]; done).
    + destruct (decide (c = client_id)) as [->|Hne].
      * by rewrite lookup_insert_eq, Hc.
      * by rewrite lookup_insert_ne.
  - split; intros c r; [|done].
    destruct (decide (c = client_id /\ r = request_id)) as [[-> _]|_]; [|done].
    by rewrite Hc.
Qed.

Lemma keeps_clients_wait client_id uuid future wake :
  keeps same_clients
    (try_except (wait_for future wake) is_TimeoutError
       (fun e => _handle_request_timeout client_id uuid ;; raise e)).
Proof.
  assert (Hsend : forall c p, keeps same_clients (transport_send c p)).
  { intros c p w. rewrite transport_send_eq. done. }
  apply keeps_try_except; [exact same_clients_trans| |intros e].
  - intros w. unfold wait_for. by repeat case_match.
  - apply keeps_bind; [exact same_clients_trans| |intros _; by apply keeps_raise].
    unfold _handle_request_timeout, send_notification.
    apply keeps_try_except; [exact same_clients_trans| |intros e'; by intros w].
    cbv zeta. apply keeps_bind; [exact same_clients_trans|by intros w|intros r].
    destruct (negb r); [by apply keeps_raise|apply Hsend].
Qed.

Lemma tracked_entries client_id request uuid w :
  (forall c r, (c, r) <> (client_id, inl uuid) ->
               outbound_entry (tracked client_id request uuid w) c r = outbound_entry w c r)
  /\ (forall c r, inbound_entry (tracked client_id request uuid w) c r = inbound_entry w c r).
Proof.
  unfold tracked, inbound_entry, outbound_entry. cbn [clients set_clients set_futures].
  split; intros c r.
  - intros Hne. destruct (decide (c = client_id)) as [->|Hc].
    + rewrite lookup_insert_eq. cbn.
      rewrite lookup_insert_ne by congruence.
      by destruct (clients w !! client_id).
    + by rewrite lookup_insert_ne.
  - destruct (decide (c = client_id)) as [->|Hc].
    + rewrite lookup_insert_eq. cbn. by destruct (clients w !! client_id).
    + by rewrite lookup_insert_ne.
Qed.

(** X12. An outbound request minds its own entry.  A call of [send_request]
    that nothing interleaves with, however it ends (not running, refused by
    the transport, timed out, cancelled), leaves every other outbound entry
    and every inbound entry as they were; and so does the end of a
    [send_request] that resumes from its wait in any world: a timeout of one
    request does not untrack another. *)
Theorem send_request_minds_its_own_entry client_id request uuid future wake w :
  let w1 := after (send_request client_id request uuid (fun w => w) wake) w in
  let w2 := after (send_request_resumed client_id uuid future wake) w in
  (forall c r, (c, r) <> (client_id, inl uuid) ->
               outbound_entry w1 c r = outbound_entry w c r)
  /\ (forall c r, inbound_entry w1 c r = inbound_entry w c r)
  /\ (forall c r, (c, r) <> (client_id, inl uuid) ->
                  outbound_entry w2 c r = outbound_entry w c r)
  /\ (forall c r, inbound_entry w2 c r = inbound_entry w c r).
Proof.
  intros w1 w2.
  assert (Hfinally : forall {A} (body : M A) w0,
            keeps same_clients body ->
            (forall c r, (c, r) <> (client_id, inl uuid) ->
               outbound_entry
                 (snd (try_finally body
                         (untrack_request_to_client client_id (inl uuid) ;; ret tt) w0)) c r
               = outbound_entry w0 c r)
            /\ (forall c r,
                  inbound_entry
                    (snd (try_finally body
                            (untrack_request_to_client client_id (inl uuid) ;; ret tt) w0)) c r
                  = inbound_entry w0 c r)).
  { intros A body w0 Hbody. unfold try_finally.
    specialize (Hbody w0). destruct (body w0) as [r0 wb]. cbn [snd] in Hbody.
    destruct (untrack_to_entries client_id (inl uuid) wb) as [Hout Hin].
    destruct (untrack_to_removes client_id (inl uuid) wb) as (cs & Heq & _).
    rewrite Heq in Hout, Hin |- *. cbn [snd] in *.
    unfold same_clients in Hbody.
    split; intros c r.
    - intros Hne. rewrite Hout. rewrite decide_False by (intros [-> ->]; done).
      unfold outbound_entry. by rewrite Hbody.
    - rewrite Hin. unfold inbound_entry. by rewrite Hbody. }
  assert (H2 : (forall c r, (c, r) <> (client_id, inl uuid) ->
                            outbound_entry w2 c r = outbound_entry w c r)
               /\ (forall c r, inbound_entry w2 c r = inbound_entry w c r)).
  { subst w2. unfold after, send_request_resumed. apply Hfinally, keeps_clients_wait. }
  assert (H1 : (forall c r, (c, r) <> (client_id, inl uuid) ->
                            outbound_entry w1 c r = outbound_entry w c r)
               /\ (forall c r, inbound_entry w1 c r = inbound_entry w c r)).
  { subst w1. unfold after. destruct (running w) eqn:Hr.
    - rewrite (send_request_running _ _ _ _ _ _ Hr).
      destruct (tracked_entries client_id request uuid w) as [Hto Hti].
      match goal with |- context [try_finally ?b _ ?x] =>
        destruct (Hfinally _ b x) as [Ho Hi] end.
      { apply keeps_try_except; [exact same_clients_trans| |intros e].
        - apply keeps_bind; [exact same_clients_trans| |intros _].
          + intros w0. rewrite transport_send_eq. done.
          + apply keeps_bind; [exact same_clients_trans|by intros w0|intros _].
            intros w0. unfold wait_for. by repeat case_match.
        - apply keeps_bind; [exact same_clients_trans| |intros _; by apply keeps_raise].
          assert (Hk := keeps_clients_wait client_id uuid 0 wake).
          unfold _handle_request_timeout, send_notification.
          apply keeps_try_except; [exact same_clients_trans| |intros e'; by intros w0].
          cbv zeta. apply keeps_bind; [exact same_clients_trans|by intros w0|intros r].
          destruct (negb r); [by apply keeps_raise|].
          intros w0. rewrite transport_send_eq. done. }
      split; intros c r.
      + intros Hne. by rewrite Ho, Hto.
      + by rewrite Hi, Hti.
    - unfold send_request, bind, self_running. rewrite Hr. done. }
  destruct H1, H2. done.
Qed.

(** *** The turn of a task and its callbacks *)

Lemma execute_ready handler client_id request_id request w :
  ready (snd (_execute_request_handler handler client_id request_id request w)) = ready w.
Proof.
  unfold _execute_request_handler, _send_error, try_except, bind, await_outcome.
  destruct (handler client_id request) as [[result|error]|e].
  - rewrite transport_send_eq. destruct (next_send w) as [e|]; [|done].
    destruct (is_Exception e); [|done]. by rewrite transport_send_eq.
  - rewrite transport_send_eq. destruct (next_send w) as [e|].
    + destruct (is_Exception e); [|done]. by rewrite transport_send_eq.
    + destruct (_should_disconnect_for_error error); [|done].
      rewrite cleanup_client_eq. cbn [snd]. unfold SpecManager.teardown. by case_match.
  - destruct (is_Exception e); [|done]. by rewrite transport_send_eq.
Qed.

Lemma run_coroutine_ready coro w : ready (snd (run_coroutine coro w)) = ready w.
Proof. destruct coro; [apply execute_ready|done]. Qed.

Lemma run_handles_done_callbacks cbs :
  run_handles (map task_done_callback cbs) = run_done_callbacks cbs.
Proof. induction cbs as [|cb cbs IH]; [done|]. cbn [map run_handles run_done_callbacks run_handle]. by rewrite IH. Qed.

Lemma set_ready_back handles w : ready w = [] -> set_ready [] (set_ready handles w) = w.
Proof. destruct w. cbn. by intros ->. Qed.

Lemma run_ready_idle w : ready w = [] -> run_ready w = (Ok tt, w).
Proof.
  intros Hready. unfold run_ready, bind, get_world, modify. rewrite Hready.
  cbn [run_handles]. unfold ret. by rewrite <- (set_ready_back [] w) at 2.
Qed.

Lemma task_finishes_as_steps task s w :
  ready w = [] ->
  task_finishes task s w = (task_ends task s ;; run_ready) w.
Proof.
  intros Hready. unfold task_finishes, task_ends, bind, modify, get_world.
  assert (Hr1 : ready (set_task_state task s w) = []) by exact Hready.
  destruct (tasks (set_task_state task s w) !! task) as [t|].
  - unfold run_ready, bind, get_world, modify. cbn [ready set_ready]. rewrite Hr1. cbn [app].
    by rewrite run_handles_done_callbacks, set_ready_back.
  - unfold ret. by rewrite run_ready_idle.
Qed.

(** [run_task] is the turn of the task followed by the calls of the
    callbacks that the turn has scheduled, when no other callback was waiting
    in the loop. *)
Lemma run_task_as_steps task w :
  ready w = [] ->
  run_task task w = (task_step task ;; run_ready) w.
Proof.
  intros Hready. unfold run_task, task_step, task_turn, bind, get_world, outcome_of.
  destruct (tasks w !! task) as [t|]; [|unfold ret; by rewrite run_ready_idle].
  destruct (task_state t); try (unfold ret; by rewrite run_ready_idle).
  - pose proof (run_coroutine_ready (task_coro t) w) as Hr. rewrite Hready in Hr.
    destruct (run_coroutine (task_coro t) w) as [[[]|e] w1]; cbn [snd] in Hr.
    + destruct (task_state <$> tasks w1 !! task) as [[]|];
        exact (task_finishes_as_steps _ _ _ Hr).
    + destruct (is_CancelledError e); exact (task_finishes_as_steps _ _ _ Hr).
  - exact (task_finishes_as_steps _ _ _ Hready).
Qed.

(** *** No inbound entry is left behind *)

Lemma gentle_refl w : gentle w w.
Proof. split; [done|]. split; [|done]. intros task t Ht. by exists t. Qed.

Lemma gentle_trans w1 w2 w3 : gentle w1 w2 -> gentle w2 w3 -> gentle w1 w3.
Proof.
  intros (He1 & Ht1 & Hr1) (He2 & Ht2 & Hr2). split; [by eauto|]. split; [|by eauto].
  intros task t Ht. destruct (Ht1 task t Ht) as (t2 & Ht2' & Hd2 & Hcb2).
  destruct (Ht2 task t2 Ht2') as (t3 & Ht3 & Hd3 & Hcb3).
  exists t3. split; [done|]. split; [by auto|]. auto.
Qed.

Lemma keeps_covered_refl w : keeps_covered w w.
Proof. by intros H. Qed.

Lemma keeps_covered_trans w1 w2 w3 :
  keeps_covered w1 w2 -> keeps_covered w2 w3 -> keeps_covered w1 w3.
Proof. unfold keeps_covered. auto. Qed.

Lemma gentle_keeps_covered w w' : gentle w w' -> keeps_covered w w'.
Proof.
  intros (He & Ht & Hr) Hinv client_id request_id request task Hentry.
  destruct (Hinv _ _ _ _ (He _ _ _ Hentry)) as (t & Htask & Hd).
  destruct (Ht task t Htask) as (t' & Ht' & Hd' & Hcb').
  exists t'. split; [done|].
  destruct Hd as [[Hd Hcb]|Hd]; [left; by auto|right; by auto].
Qed.

(** A step that touches neither the tasks, nor the queue of the loop, nor
    the inbound entries. *)
Lemma gentle_frame w w' :
  tasks w' = tasks w ->
  ready w' = ready w ->
  (forall c r, inbound_entry w' c r = inbound_entry w c r) ->
  gentle w w'.
Proof.
  intros Ht Hr He. split; [|split].
  - intros c r e. by rewrite He.
  - intros task t Htask. exists t. by rewrite Ht.
  - intros handle. by rewrite Hr.
Qed.

Lemma cancel_in_gentle task ts i t :
  ts !! i = Some t ->
  exists t', cancel_in task ts !! i = Some t'
             /\ (task_done (task_state t) = false -> task_done (task_state t') = false)
             /\ task_callbacks t' = task_callbacks t.
Proof.
  intros Hi. unfold cancel_in. destruct (decide (task = i)) as [->|Hne].
  - rewrite list_lookup_alter_eq, Hi. cbn.
    destruct (task_done (task_state t)) eqn:Hd; by eexists.
  - rewrite list_lookup_alter_ne by done. by exists t.
Qed.

Lemma cancel_all_gentle entries ts i t :
  ts !! i = Some t ->
  exists t', SpecManager.cancel_all entries ts !! i = Some t'
             /\ (task_done (task_state t) = false -> task_done (task_state t') = false)
             /\ task_callbacks t' = task_callbacks t.
Proof.
  intros Hi. induction entries as [|entry entries IH]; [by exists t|].
  cbn [SpecManager.cancel_all foldr]. destruct IH as (t1 & H1 & Hd1 & Hc1).
  destruct (cancel_in_gentle (snd (snd entry)) _ i t1 H1) as (t2 & H2 & Hd2 & Hc2).
  exists t2. split; [exact H2|]. split; [by auto|]. congruence.
Qed.

Lemma gentle_ensure client_id : keeps gentle (_ensure_client_registered client_id).
Proof.
  intros w. rewrite ensure_client_registered_eq. cbn [snd].
  apply gentle_frame; [| |apply registered_entries];
    unfold registered; by destruct (clients w !! client_id).
Qed.

Lemma gentle_transport_send client_id payload : keeps gentle (transport_send client_id payload).
Proof. intros w. rewrite transport_send_eq. by apply gentle_frame. Qed.

Lemma gentle_print line : keeps gentle (print line).
Proof. intros w. by apply gentle_frame. Qed.

Lemma gentle_create_task coro : keeps gentle (create_task coro).
Proof.
  intros w. split; [done|]. split; [|done]. intros task t Ht. exists t.
  cbn [snd create_task tasks set_tasks]. split; [|done].
  rewrite lookup_app_l; [done|]. by eapply lookup_lt_Some.
Qed.

Lemma gentle_task_cancel task : keeps gentle (task_cancel task).
Proof.
  intros w. unfold task_cancel. destruct (tasks w !! task) as [t0|]; [|apply gentle_refl].
  split; [done|]. split; [|done]. intros i t Ht. cbn [snd tasks set_tasks].
  destruct (cancel_in_gentle task (tasks w) i t Ht) as (t' & H1 & H2 & H3).
  exists t'. split; [done|]. split; [done|]. by rewrite H3.
Qed.

Lemma gentle_call_soon handle : keeps gentle (call_soon handle).
Proof.
  intros w. split; [done|]. split.
  - intros task t Ht. by exists t.
  - intros h Hh. cbn [snd call_soon modify ready set_ready]. apply elem_of_app. by left.
Qed.

Lemma gentle_new_future : keeps gentle new_future.
Proof. intros w. by apply gentle_frame. Qed.

Lemma gentle_wait_for future wake : keeps gentle (wait_for future wake).
Proof. intros w. unfold wait_for. repeat case_match; by apply gentle_frame. Qed.

Lemma gentle_self_running : keeps gentle self_running.
Proof. intros w. apply gentle_refl. Qed.

Lemma gentle_subscript payload key : keeps gentle (subscript payload key).
Proof. intros w. unfold subscript. case_match; apply gentle_refl. Qed.

Lemma gentle_get_client client_id : keeps gentle (get_client client_id).
Proof. intros w. apply gentle_refl. Qed.

Lemma gentle_get_request_to_client client_id request_id :
  keeps gentle (get_request_to_client client_id request_id).
Proof. intros w. apply gentle_refl. Qed.

Lemma gentle_untrack_from client_id request_id :
  keeps gentle (untrack_request_from_client client_id request_id).
Proof.
  intros w. split; [|split].
  - intros c r e. rewrite untrack_from_entries. by case_match.
  - intros task t Ht. exists t.
    destruct (untrack_from_only_clients client_id request_id w) as (r0 & cs & ->). done.
  - intros handle Hh.
    destruct (untrack_from_only_clients client_id request_id w) as (r0 & cs & ->). done.
Qed.

Lemma gentle_untrack_to client_id request_id :
  keeps gentle (untrack_request_to_client client_id request_id ;; ret tt).
Proof.
  intros w. destruct (untrack_to_entries client_id request_id w) as [_ Hin].
  apply gentle_frame; [| |exact Hin];
    by destruct (untrack_to_removes client_id request_id w) as (cs & -> & _).
Qed.

Lemma gentle_track_to client_id request_id request future :
  keeps gentle (track_request_to_client client_id request_id request future).
Proof.
  intros w. cbn [track_request_to_client spec_manager SpecManager.manager].
  unfold SpecManager.track_request_to_client.
  destruct (clients w !! client_id) as [c0|] eqn:Hc; [|apply gentle_refl].
  apply gentle_frame; [done|done|]. intros c r. unfold inbound_entry.
  cbn [snd clients set_clients].
  destruct (decide (c = client_id)) as [->|Hne].
  - by rewrite lookup_insert_eq, Hc.
  - by rewrite lookup_insert_ne.
Qed.

Lemma gentle_resolve client_id request_id v :
  keeps gentle (resolve_request_to_client client_id request_id v).
Proof.
  intros w. cbn [resolve_request_to_client spec_manager SpecManager.manager].
  unfold SpecManager.resolve_request_to_client.
  destruct (clients w !! client_id) as [c0|] eqn:Hc; [|apply gentle_refl].
  destruct (requests_to_client c0 !! request_id) as [[original future]|];
    [|apply gentle_refl].
  apply gentle_frame; [done|done|]. intros c r'. unfold inbound_entry.
  cbn [snd clients set_clients set_futures].
  destruct (decide (c = client_id)) as [->|Hne].
  - by rewrite lookup_insert_eq, Hc.
  - by rewrite lookup_insert_ne.
Qed.

Lemma gentle_teardown client_id w :
  gentle w (SpecManager.teardown cancellation_error client_id w).
Proof.
  unfold SpecManager.teardown.
  destruct (clients w !! client_id) as [c0|] eqn:Hc; [|apply gentle_refl].
  split; [|split; [|done]].
  - intros c r e. unfold inbound_entry. cbn [clients set_clients].
    destruct (decide (c = client_id)) as [->|Hne].
    + by rewrite lookup_delete_eq.
    + by rewrite lookup_delete_ne.
  - intros task t Ht. cbn [tasks set_clients set_futures set_tasks].
    destruct (cancel_all_gentle (map_to_list (requests_from_client c0)) _ task t Ht)
      as (t' & H1 & H2 & H3).
    exists t'. split; [done|]. split; [done|]. by rewrite H3.
Qed.

Lemma gentle_cleanup_client client_id : keeps gentle (cleanup_client client_id).
Proof. intros w. rewrite cleanup_client_eq. apply gentle_teardown. Qed.

Lemma gentle_cleanup_all_clients : keeps gentle cleanup_all_clients.
Proof.
  intros w. cbn [cleanup_all_clients spec_manager SpecManager.manager].
  unfold SpecManager.cleanup_all_clients, modify. cbn [snd].
  induction (map fst (map_to_list (clients w))) as [|k ks IH]; [apply gentle_refl|].
  cbn [foldr]. eapply gentle_trans; [exact IH|apply gentle_teardown].
Qed.

Create HintDb gentle.

#[local] Hint Resolve gentle_ensure gentle_transport_send gentle_print gentle_create_task
  gentle_task_cancel gentle_call_soon gentle_new_future gentle_wait_for gentle_self_running
  gentle_subscript gentle_get_client gentle_get_request_to_client gentle_untrack_from
  gentle_untrack_to gentle_track_to gentle_resolve gentle_cleanup_client
  gentle_cleanup_all_clients : gentle.

Ltac gentle_step :=
  first
    [ solve [auto with gentle]
    | progress cbv zeta
    | apply keeps_ret; apply gentle_refl
    | apply keeps_raise; apply gentle_refl
    | apply keeps_get_world; apply gentle_refl
    | apply keeps_await_outcome; apply gentle_refl
    | apply keeps_outcome_of
    | apply keeps_modify; intros ?; apply gentle_frame; [done|done|by intros]
    | apply keeps_bind; [apply gentle_trans | | intros ?]
    | apply keeps_try_except; [apply gentle_trans | | intros ?]
    | apply keeps_try_finally; [apply gentle_trans | | ]
    | case_match ].

Lemma gentle_covered {A} (c : M A) : keeps gentle c -> keeps keeps_covered c.
Proof. intros H w. apply gentle_keeps_covered, H. Qed.

Lemma gentle_execute handler client_id request_id request :
  keeps gentle (_execute_request_handler handler client_id request_id request).
Proof. unfold _execute_request_handler, _send_error. repeat gentle_step. Qed.

Lemma gentle_send_request_until_wait client_id request uuid :
  keeps gentle (send_request_until_wait client_id request uuid).
Proof.
  unfold send_request_until_wait. repeat gentle_step.
  intros w. rewrite transport_send_eq.
  destruct (next_send w) as [e|]; [|by apply gentle_frame].
  match goal with |- gentle _ (snd (?c ?x)) =>
    assert (Hk : keeps gentle c) end.
  { unfold _handle_request_timeout, send_notification. repeat gentle_step. }
  eapply gentle_trans; [|apply Hk]. by apply gentle_frame.
Qed.

Lemma gentle_send_request_resumed client_id uuid future wake :
  keeps gentle (send_request_resumed client_id uuid future wake).
Proof.
  unfold send_request_resumed, _handle_request_timeout, send_notification.
  repeat gentle_step.
Qed.

Lemma gentle_cancel client_id request_id :
  keeps gentle (cancel_request_from_client client_id request_id).
Proof. unfold cancel_request_from_client. repeat gentle_step. Qed.

Lemma gentle_send_notification client_id notification :
  keeps gentle (send_notification client_id notification).
Proof. unfold send_notification. repeat gentle_step. Qed.

Lemma gentle_message_loop_ends cause : keeps gentle (message_loop_ends cause).
Proof.
  intros w. destruct (message_loop_ends_eq cause w) as (final & out & _ & ->).
  cbn [snd]. split; [done|]. split.
  - intros task t Ht. by exists t.
  - intros handle Hh. cbn [ready set_ready]. apply elem_of_app. by left.
Qed.

(** Calling a callback is gentle; what is not is taking it off the queue. *)
Lemma gentle_run_handle handle : keeps gentle (run_handle handle).
Proof.
  destruct handle as [|[client_id request_id]]; cbn [run_handle run_done_callback];
    unfold call_ready, _on_message_loop_done; repeat gentle_step.
Qed.

(** Accepting a request keeps the entries covered: the entry that is added
    points to the task just created, to which the callback is attached. *)
Lemma covered_route_request client_id request_id request :
  keeps keeps_covered (_route_request client_id request_id request).
Proof.
  intros w. unfold _route_request, bind, get_world.
  destruct (_request_handlers w !! method request) as [handler|].
  2:{ apply gentle_keeps_covered. unfold _send_error. apply gentle_transport_send. }
  unfold create_task.
  set (w1 := set_tasks _ w).
  assert (Hg1 : gentle w w1) by apply (gentle_create_task _ w).
  cbn [track_request_from_client spec_manager SpecManager.manager].
  unfold SpecManager.track_request_from_client.
  assert (Hc1 : clients w1 = clients w) by done. rewrite Hc1.
  destruct (clients w !! client_id) as [c0|] eqn:Hc;
    [|by apply gentle_keeps_covered].
  destruct (requests_from_client c0 !! request_id) eqn:He;
    [by apply gentle_keeps_covered|].
  unfold add_done_callback, modify. cbn [snd].
  intros Hinv cid rid req task Hentry.
  unfold inbound_entry in Hentry. cbn [clients set_tasks set_clients] in Hentry.
  assert (Hready : forall ts cs, ready (set_tasks ts (set_clients cs w1)) = ready w) by done.
  rewrite Hready. cbn [tasks set_tasks set_clients].
  assert (Hnew : alter (fun t => mkTask (task_coro t) (task_state t)
                                        (task_callbacks t ++
                                           [untrack_callback client_id request_id]))
                       (length (tasks w)) (tasks w1) !! length (tasks w)
                 = Some (mkTask
                           (execute_request_handler_coro handler client_id request_id request)
                           TaskPending [untrack_callback client_id request_id])).
  { rewrite list_lookup_alter_eq. subst w1. cbn [tasks set_tasks].
    rewrite lookup_app_r by done. by rewrite Nat.sub_diag. }
  assert (Hold : forall c r q k,
            inbound_entry w c r = Some (q, k) ->
            exists t,
              alter (fun t => mkTask (task_coro t) (task_state t)
                                     (task_callbacks t ++
                                        [untrack_callback client_id request_id]))
                    (length (tasks w)) (tasks w1) !! k = Some t
              /\ (task_done (task_state t) = false
                  /\ untrack_callback c r ∈ task_callbacks t
                  \/ task_done_callback (untrack_callback c r) ∈ ready w)).
  { intros c r q k Hq. destruct (Hinv _ _ _ _ Hq) as (t & Ht & Hd).
    assert (Hlt : (k < length (tasks w))%nat) by by eapply lookup_lt_Some.
    exists t. rewrite list_lookup_alter_ne by lia. subst w1. cbn [tasks set_tasks].
    rewrite lookup_app_l by done. done. }
  destruct (decide (cid = client_id)) as [->|Hne].
  - rewrite lookup_insert_eq in Hentry. cbn in Hentry.
    destruct (decide (rid = request_id)) as [->|Hr].
    + rewrite lookup_insert_eq in Hentry. simplify_eq.
      eexists. split; [exact Hnew|]. left. cbn. split; [done|].
      by apply list_elem_of_singleton.
    + rewrite lookup_insert_ne in Hentry by done.
      apply (Hold client_id rid req task). unfold inbound_entry. by rewrite Hc.
  - rewrite lookup_insert_ne in Hentry by done.
    apply (Hold cid rid req task). exact Hentry.
Qed.

Lemma covered_iteration client_message :
  keeps keeps_covered (_message_loop_iteration client_message).
Proof.
  assert (Hroute : forall c r q, keeps keeps_covered (_route_request c r q))
    by apply covered_route_request.
  unfold _message_loop_iteration, _route_client_message.
  apply keeps_try_except;
    [exact keeps_covered_trans| |intros e; apply gentle_covered, gentle_print].
  repeat case_match.
  - unfold _handle_request.
    apply keeps_bind; [exact keeps_covered_trans| |intros request_id].
    { apply gentle_covered. unfold payload_id. repeat gentle_step. }
    apply keeps_bind; [exact keeps_covered_trans|apply gentle_covered, gentle_ensure|intros _].
    case_match; [apply Hroute|].
    apply gentle_covered. unfold _send_error. apply gentle_transport_send.
  - apply gentle_covered. unfold _handle_notification. repeat gentle_step.
  - apply gentle_covered. unfold _handle_response, payload_id. repeat gentle_step.
  - apply gentle_covered, gentle_print.
Qed.

(** A task that ends leaves its entries to its done-callbacks, which are
    scheduled at that moment. *)
Lemma covered_task_ends task s : keeps keeps_covered (task_ends task s).
Proof.
  intros w Hinv. unfold task_ends, bind, modify, get_world.
  set (w1 := set_task_state task s w).
  destruct (tasks w !! task) as [t0|] eqn:Ht0.
  - assert (Ht1 : tasks w1 !! task = Some (mkTask (task_coro t0) s (task_callbacks t0))).
    { subst w1. unfold set_task_state. cbn [tasks set_tasks].
      by rewrite list_lookup_alter_eq, Ht0. }
    rewrite Ht1. cbn [task_callbacks snd].
    intros cid rid req k Hentry.
    destruct (Hinv _ _ _ _ Hentry) as (t & Ht & Hd).
    cbn [tasks ready set_ready].
    destruct (decide (k = task)) as [->|Hne].
    + simplify_eq. eexists. split; [exact Ht1|]. right. apply elem_of_app.
      destruct Hd as [[Hd Hcb]|Hd]; [right|by left].
      apply list_elem_of_fmap. by eexists.
    + exists t. split.
      { subst w1. unfold set_task_state. cbn [tasks set_tasks].
        by rewrite list_lookup_alter_ne. }
      destruct Hd as [Hd|Hd]; [by left|].
      right. apply elem_of_app. by left.
  - assert (Ht1 : tasks w1 !! task = None).
    { subst w1. unfold set_task_state. cbn [tasks set_tasks].
      by rewrite list_lookup_alter_eq, Ht0. }
    rewrite Ht1. unfold ret. cbn [snd].
    intros cid rid req k Hentry.
    destruct (Hinv _ _ _ _ Hentry) as (t & Ht & Hd).
    exists t. split; [|done]. subst w1. unfold set_task_state. cbn [tasks set_tasks].
    rewrite list_lookup_alter_ne; [done|]. intros ->. congruence.
Qed.

(** A task whose done-callbacks are called as it ends takes its entries
    with it. *)
Lemma covered_task_finishes task s : keeps keeps_covered (task_finishes task s).
Proof.
  intros w Hinv. unfold task_finishes, bind, modify, get_world.
  set (w1 := set_task_state task s w).
  assert (Hentries1 : forall c r, inbound_entry w1 c r = inbound_entry w c r) by done.
  destruct (tasks w !! task) as [t0|] eqn:Ht0.
  - assert (Ht1 : tasks w1 !! task = Some (mkTask (task_coro t0) s (task_callbacks t0))).
    { subst w1. unfold set_task_state. cbn [tasks set_tasks].
      by rewrite list_lookup_alter_eq, Ht0. }
    rewrite Ht1. cbn [task_callbacks].
    intros cid rid req k Hentry. rewrite run_done_callbacks_entries in Hentry.
    destruct (decide (untrack_callback cid rid ∈ task_callbacks t0)) as [|Hnin];
      [discriminate|].
    rewrite Hentries1 in Hentry.
    destruct (Hinv _ _ _ _ Hentry) as (t & Ht & Hd).
    destruct (run_done_callbacks_only_clients (task_callbacks t0) w1) as (cs & ->).
    cbn [snd tasks ready set_clients].
    destruct Hd as [[Hd Hcb]|Hd].
    + exists t. split; [|by left].
      subst w1. unfold set_task_state. cbn [tasks set_tasks].
      rewrite list_lookup_alter_ne; [done|]. intros ->. congruence.
    + destruct (decide (k = task)) as [->|Hne].
      * eexists. split; [exact Ht1|by right].
      * exists t. split; [|by right].
        subst w1. unfold set_task_state. cbn [tasks set_tasks].
        by rewrite list_lookup_alter_ne.
  - assert (Ht1 : tasks w1 !! task = None).
    { subst w1. unfold set_task_state. cbn [tasks set_tasks].
      by rewrite list_lookup_alter_eq, Ht0. }
    rewrite Ht1. unfold ret. cbn [snd].
    intros cid rid req k Hentry. rewrite Hentries1 in Hentry.
    destruct (Hinv _ _ _ _ Hentry) as (t & Ht & Hd).
    exists t. split; [|done]. subst w1. unfold set_task_state. cbn [tasks set_tasks].
    rewrite list_lookup_alter_ne; [done|]. intros ->. congruence.
Qed.

Lemma covered_task_turn finish task :
  (forall s, keeps keeps_covered (finish task s)) ->
  keeps keeps_covered (task_turn finish task).
Proof.
  intros Hfin. unfold task_turn.
  apply keeps_bind;
    [exact keeps_covered_trans|apply keeps_get_world, keeps_covered_refl|intros w0].
  destruct (tasks w0 !! task) as [t|]; [|apply keeps_ret, keeps_covered_refl].
  destruct (task_state t); try (apply keeps_ret, keeps_covered_refl); [|apply Hfin].
  apply keeps_bind; [exact keeps_covered_trans| |intros r].
  - apply keeps_outcome_of, gentle_covered. unfold run_coroutine.
    destruct (task_coro t); [apply gentle_execute|].
    apply keeps_await_outcome, gentle_refl.
  - destruct r as [[]|e].
    + apply keeps_bind;
        [exact keeps_covered_trans|apply keeps_get_world, keeps_covered_refl|intros w1].
      repeat case_match; apply Hfin.
    + destruct (is_CancelledError e); apply Hfin.
Qed.

(** The loop calls the callback at the head of its queue: the entry that a
    done-callback untracks is gone, and the other entries rely on callbacks
    that are still in the queue. *)
Lemma covered_run_next_ready : keeps keeps_covered run_next_ready.
Proof.
  intros w Hinv. unfold run_next_ready, bind, get_world, modify.
  destruct (ready w) as [|handle rest] eqn:Hready; [exact Hinv|].
  set (w1 := set_ready rest w).
  pose proof (run_handle_ready handle w1) as Hrest.
  destruct (gentle_run_handle handle w1) as (Hentries & Htasks & _).
  intros cid rid req k Hentry.
  assert (Hentry1 : inbound_entry w cid rid = Some (req, k)) by exact (Hentries _ _ _ Hentry).
  destruct (Hinv _ _ _ _ Hentry1) as (t & Ht & Hd).
  destruct (Htasks k t Ht) as (t' & Ht' & Hd' & Hcb').
  exists t'. split; [exact Ht'|].
  destruct Hd as [[Hd Hcb]|Hd]; [left; by auto|].
  right. rewrite Hrest. subst w1. cbn [ready set_ready].
  rewrite Hready in Hd. apply elem_of_cons in Hd as [Hd|Hd]; [|exact Hd].
  exfalso. subst handle. revert Hentry. cbn [run_handle run_done_callback].
  unfold call_ready, try_except.
  pose proof (untrack_from_entries cid rid (set_ready rest w) cid rid) as Hgone.
  rewrite decide_True in Hgone by done. unfold bind.
  destruct (untrack_from_only_clients cid rid (set_ready rest w)) as (r0 & cs & Heq).
  rewrite Heq in Hgone |- *. cbn [snd] in *. unfold ret. cbn [snd]. congruence.
Qed.

Lemma covered_no_client w : clients w = ∅ -> inbound_covered w.
Proof.
  intros Hc cid rid req task Hentry. unfold inbound_entry in Hentry.
  by rewrite Hc, lookup_empty in Hentry.
Qed.

Lemma covered_step ev w : inbound_covered w -> inbound_covered (step ev w).
Proof.
  intros Hinv. destruct ev; cbn [step].
  - revert Hinv. apply gentle_keeps_covered. unfold after, start, bind, self_running.
    destruct (running w); by apply gentle_frame.
  - destruct (running w) eqn:Hr.
    + destruct (stop_running w Hr) as (w' & Hs & Hc & _).
      unfold after. rewrite Hs. by apply covered_no_client.
    + unfold after. by rewrite (stop_idle w Hr).
  - revert Hinv. apply gentle_keeps_covered. by apply gentle_frame.
  - revert Hinv. apply gentle_keeps_covered. by apply gentle_frame.
  - destruct (running w); [|done]. by apply (covered_iteration client_message w).
  - destruct (running w); [|done]. revert Hinv.
    apply gentle_keeps_covered, gentle_message_loop_ends.
  - revert Hinv. apply (covered_task_turn task_ends task), covered_task_ends.
  - revert Hinv. apply covered_run_next_ready.
  - revert Hinv. apply gentle_keeps_covered, gentle_send_request_until_wait.
  - revert Hinv. apply gentle_keeps_covered, gentle_send_request_resumed.
  - revert Hinv. apply gentle_keeps_covered, gentle_send_notification.
  - revert Hinv. apply gentle_keeps_covered, gentle_cancel.
Qed.

(** X13. No inbound entry is left behind.  Every request in an inbound
    table has a task that exists, and either that task is still to end and
    carries the done-callback that untracks the request, or that callback is
    scheduled in the event loop and not yet called.  This holds of a new coordinator and is kept
    by every operation of the coordinator and every step of the event loop,
    from whatever world it holds in: the events of a history (start, stop,
    registration, a message handled, the end of the stream, the turn of a
    task, the call of a scheduled callback, outbound requests and
    notifications, cancellation), a message handled or a loop that ends
    whether or not the coordinator counts as running, and the turn of a task
    taken together with its callbacks.  So it holds after every history; and
    whenever no callback is waiting in the loop, the task of every inbound
    entry is not done. *)
Theorem inbound_entries_are_covered :
  (forall script, inbound_covered (initial_world script))
  /\ (forall ev w, inbound_covered w -> inbound_covered (step ev w))
  /\ (forall client_message w,
        inbound_covered w ->
        inbound_covered (after (_message_loop_iteration client_message) w))
  /\ (forall cause w,
        inbound_covered w -> inbound_covered (after (message_loop_ends cause) w))
  /\ (forall task w, inbound_covered w -> inbound_covered (after (run_task task) w))
  /\ (forall evs script, inbound_covered (run evs (initial_world script)))
  /\ (forall w client_id request_id request task,
        inbound_covered w ->
        ready w = [] ->
        inbound_entry w client_id request_id = Some (request, task) ->
        exists t, tasks w !! task = Some t /\ task_done (task_state t) = false).
Proof.
  assert (Hinit : forall script, inbound_covered (initial_world script))
    by (intros script; by apply covered_no_client).
  split; [exact Hinit|]. split; [exact covered_step|].
  split; [intros client_message w; apply covered_iteration|].
  split; [intros cause w; apply gentle_keeps_covered, gentle_message_loop_ends|].
  split; [intros task w; apply (covered_task_turn task_finishes task), covered_task_finishes|].
  split.
  - intros evs script. generalize (Hinit script). generalize (initial_world script).
    induction evs as [|ev evs IH]; intros w Hinv; [exact Hinv|].
    cbn [run foldl]. apply IH, covered_step, Hinv.
  - intros w client_id request_id request task Hinv Hready Hentry.
    destruct (Hinv _ _ _ _ Hentry) as (t & Ht & [[Hd _]|Hd]); [by exists t|].
    rewrite Hready in Hd. by apply not_elem_of_nil in Hd.
Qed.

(** *** Handlers *)

Lemma registered_fields client_id w :
  send_calls (registered client_id w) = send_calls w
  /\ stdout (registered client_id w) = stdout w
  /\ tasks (registered client_id w) = tasks w
  /\ _request_handlers (registered client_id w) = _request_handlers w.
Proof. unfold registered. by destruct (clients w !! client_id). Qed.

(** The tasks once a dispatchable request with a fresh id is handled. *)
Lemma dispatch_creates_task client_id payload request_id request handler w :
  is_valid_request payload = true ->
  json_get "id" payload = Some (id_to_json request_id) ->
  parse_request payload = inl request ->
  _request_handlers w !! method request = Some handler ->
  inbound_entry w client_id request_id = None ->
  tasks (after (_message_loop_iteration (mkClientMessage client_id payload)) w)
  = tasks w ++
      [mkTask (execute_request_handler_coro handler client_id request_id request)
              TaskPending [untrack_callback client_id request_id]].
Proof.
  intros Hvalid Hid Hparse Hhandler Hfresh. unfold after.
  rewrite (iteration_of_request _ _ request_id) by done. rewrite Hparse.
  destruct (registered_entries client_id w) as (Hin & Hout & [c Hc]).
  destruct (registered_fields client_id w) as (Hcalls & Hstdout & Htasks & Hhandlers).
  pose proof (Hin client_id request_id) as Hfresh'. rewrite Hfresh in Hfresh'.
  unfold inbound_entry in Hfresh'. rewrite Hc in Hfresh'. cbn in Hfresh'.
  unfold try_except, _route_request, bind, get_world. rewrite Hhandlers, Hhandler.
  unfold create_task.
  cbn [track_request_from_client spec_manager SpecManager.manager].
  unfold SpecManager.track_request_from_client.
  cbn [clients set_tasks]. rewrite Hc, Hfresh'. unfold add_done_callback, modify.
  cbn [fst snd tasks set_tasks set_clients]. rewrite Htasks.
  rewrite alter_app_r_alt by done. rewrite Nat.sub_diag. reflexivity.
Qed.

(** X14. Registration decides the dispatch of requests, per method and with
    the last registration winning.  After a handler and then another are
    registered for a method, a request for that method is given to the
    second; the handlers of the other methods and all the notification
    handlers are the ones before; and registering a notification handler
    under a method name does not make requests for that method
    dispatchable. *)
Theorem last_registered_handler_is_dispatched
    name first second client_id payload request_id request w :
  is_valid_request payload = true ->
  json_get "id" payload = Some (id_to_json request_id) ->
  parse_request payload = inl request ->
  method request = name ->
  inbound_entry w client_id request_id = None ->
  let w' := after (register_request_handler name second)
                  (after (register_request_handler name first) w) in
  tasks (after (_message_loop_iteration (mkClientMessage client_id payload)) w')
  = tasks w ++
      [mkTask (execute_request_handler_coro second client_id request_id request)
              TaskPending [untrack_callback client_id request_id]]
  /\ (forall other, other <> name ->
                    _request_handlers w' !! other = _request_handlers w !! other)
  /\ _notification_handlers w' = _notification_handlers w
  /\ (forall handler,
        refusal (after (register_notification_handler name handler) w) payload
        = refusal w payload).
Proof.
  intros Hvalid Hid Hparse Hmethod Hfresh w'.
  split; [|split; [|split]].
  - apply (dispatch_creates_task client_id payload request_id request second w'); try done.
    rewrite Hmethod. subst w'. unfold after, register_request_handler, modify.
    cbn [snd _request_handlers set_request_handlers]. apply lookup_insert_eq.
  - intros other Hne. subst w'. unfold after, register_request_handler, modify.
    cbn [snd _request_handlers set_request_handlers].
    by rewrite !lookup_insert_ne.
  - done.
  - done.
Qed.

(** X15. A notification reaches its handler and nothing else.  A
    notification that the parser knows and whose method has a handler only
    gets a detached task that calls the handler with the sender and the
    parsed notification: the sender is not registered as a client, nothing is
    tracked, sent or printed.  When the handler returns, the turn of the task
    leaves the task finished and the rest of the world as it was, and a
    further turn does nothing: the handler is called once. *)
Theorem notification_reaches_its_handler
    client_id payload name notification handler w :
  is_valid_request payload = false ->
  is_valid_notification payload = true ->
  json_get "method" payload = Some (JStr name) ->
  parse_notification payload = Some notification ->
  _notification_handlers w !! name = Some handler ->
  let task := length (tasks w) in
  let coro := notification_handler_coro handler client_id notification in
  let w1 := set_tasks (tasks w ++ [mkTask coro TaskPending []]) w in
  let w2 := set_tasks (tasks w ++ [mkTask coro TaskFinished []]) w in
  _message_loop_iteration (mkClientMessage client_id payload) w = (Ok tt, w1)
  /\ (handler client_id notification = Ok tt ->
      run_task task w1 = (Ok tt, w2) /\ run_task task w2 = (Ok tt, w2)).
Proof.
  intros Hreq Hnotif Hm Hparse Hhandler task coro w1 w2.
  split.
  - unfold _message_loop_iteration, _route_client_message, try_except.
    cbn [cm_payload cm_client_id]. rewrite Hreq, Hnotif.
    unfold _handle_notification, subscript, bind. rewrite Hm. unfold ret.
    rewrite Hparse. unfold get_world. rewrite Hhandler. reflexivity.
  - intros Hret.
    assert (H1 : tasks w1 !! task = Some (mkTask coro TaskPending [])).
    { subst w1 task. cbn [tasks set_tasks]. rewrite lookup_app_r by done.
      by rewrite Nat.sub_diag. }
    assert (H2 : tasks w2 !! task = Some (mkTask coro TaskFinished [])).
    { subst w2 task. cbn [tasks set_tasks]. rewrite lookup_app_r by done.
      by rewrite Nat.sub_diag. }
    split.
    + unfold run_task, task_turn, bind, get_world, outcome_of. rewrite H1.
      cbn [task_state task_coro]. subst coro. cbn [run_coroutine await_outcome].
      rewrite Hret. rewrite H1. cbn [fmap option_fmap option_map task_state].
      unfold task_finishes, bind, modify, get_world.
      assert (Hw : set_task_state task TaskFinished w1 = w2).
      { subst w1 w2 task. unfold set_task_state. cbn [tasks set_tasks].
        rewrite alter_app_r_alt by done. rewrite Nat.sub_diag. reflexivity. }
      rewrite Hw, H2. reflexivity.
    + unfold run_task, task_turn, bind, get_world. rewrite H2. reflexivity.
Qed.

End OverSpecManager.

(** ** The theorems at work on the sample coordinator *)


(** C9 at work: the transport refuses the request with a connection error;
    the caller gets that error and the entry is gone. *)
Lemma failed_send_witness :
  let w := set_transport [] [Some (ConnectionError "Network connection lost")] Sample.serving in
  running w = true
  /\ next_send w = Some (ConnectionError "Network connection lost")
  /\ outbound_entry
       (after (@send_request Sample.manager "c1" Sample.ping "u-1" (fun w => w) TimerFired) w)
       "c1" (inl "u-1") = None
  /\ fst (@send_request Sample.manager "c1" Sample.ping "u-1" (fun w => w) TimerFired w)
     = Raise (ConnectionError "Network connection lost").
Proof.
  intros w.
  pose proof (failed_send_propagates_and_untracks
                Sample.cancellation "c1" Sample.ping "u-1" (fun w => w) TimerFired w
                (ConnectionError "Network connection lost") eq_refl eq_refl)
    as (_ & Hgone & _ & Hsame).
  split; [reflexivity|]. split; [reflexivity|]. split; [exact Hgone|].
  apply Hsame. left. reflexivity.
Defined.

(** C2 at work: a coordinator with a request in flight is stopped. *)
Lemma leaving_running_witness :
  running Sample.busy = true
  /\ clients Sample.busy <> ∅
  /\ clients (after (@stop Sample.manager) Sample.busy) = ∅
  /\ running (after (@stop Sample.manager) Sample.busy) = false.
Proof.
  destruct (leaving_running_cleans_up (parser:=Sample.parser) Sample.cancellation)
    as (Hstop & _ & _).
  destruct (Hstop Sample.busy eq_refl) as (_ & Hidle & Hclean & _).
  split; [reflexivity|]. split; [|split; [exact Hclean|exact Hidle]].
  intros Habs. apply (f_equal (fun m => m !! "c1")) in Habs.
  vm_compute in Habs. discriminate.
Defined.

(** C2, the claim as stated, fails: the stream of the transport breaks while
    request 1 of client ["c1"] is in flight, and [stop] is called before the
    event loop has called the done-callback of the loop task.  The
    coordinator is not running, [stop] returns at once, and when it has
    returned the inbound table of ["c1"] still holds the request.  The
    cleanup only runs when the loop calls the callback. *)
Lemma stop_after_loop_end_leaves_entries :
  let w := Sample.run_sample
             [ev_stream_ends (Some (ConnectionError "Network connection lost"))]
             Sample.busy in
  let w' := after (@stop Sample.manager) w in
  running Sample.busy = true
  /\ running w = false
  /\ ready w = [message_loop_done]
  /\ fst (@stop Sample.manager w) = Ok tt
  /\ inbound_entry w' "c1" (inr 1) = Some (Sample.ping, 0%nat)
  /\ ~ (forall client_id request_id, inbound_entry w' client_id request_id = None)
  /\ clients (Sample.run_sample [ev_run_next_ready] w') = ∅.
Proof.
  intros w w'.
  assert (Hentry : inbound_entry w' "c1" (inr 1) = Some (Sample.ping, 0%nat))
    by (vm_compute; reflexivity).
  split; [reflexivity|]. split; [reflexivity|]. split; [reflexivity|].
  split; [reflexivity|]. split; [exact Hentry|]. split.
  - intros Hclean. rewrite Hclean in Hentry. discriminate.
  - apply map_eq. intros k. vm_compute. reflexivity.
Qed.



(** C6 at work: the handler registered for request 2 of ["c1"] raises. *)
Lemma handler_exception_witness :
  Sample.boom "c1" Sample.ping = Raise (ValueError "boom")
  /\ is_Exception (ValueError "boom") = true
  /\ send_calls
       (after (@_execute_request_handler Sample.base Sample.manager
                 Sample.boom "c1" (inr 2) Sample.ping) Sample.busy)
     = [ mkSendCall "c1"
           (JObj [("jsonrpc", JStr "2.0"); ("id", JNum 2);
                  ("error",
                   JObj [("code", JNum (-32603));
                         ("message", JStr "Problem handling request");
                         ("data", JObj [("request", JObj [("method", JStr "ping")])])])])
           None ]
  /\ clients
       (after (@_execute_request_handler Sample.base Sample.manager
                 Sample.boom "c1" (inr 2) Sample.ping) Sample.busy)
     = clients Sample.busy.
Proof.
  destruct (handler_exception_answers_internal_error
              (protocol_base:=Sample.base) (client_manager:=Sample.manager)
              Sample.boom "c1" (inr 2) Sample.ping Sample.busy (ValueError "boom")
              eq_refl eq_refl) as (Hcalls & Hclients & _).
  split; [reflexivity|]. split; [reflexivity|]. split; [exact Hcalls|exact Hclients].
Defined.

(** C10 at work: the handler returns the version-mismatch error, the
    transport accepts the error response, and the client manager's cleanup
    raises; the coordinator goes on to send the INTERNAL_ERROR response. *)
Lemma cleanup_failure_witness :
  let w1 := sent "c1" (to_wire (JSONRPCError Sample.mismatch (inr 3))) Sample.busy in
  @ExecutionFails Sample.base Sample.failing_cleanup
    Sample.refuse_version "c1" (inr 3) Sample.initialize Sample.busy
    (RuntimeError "cleanup failed") w1
  /\ is_Exception (RuntimeError "cleanup failed") = true
  /\ @_execute_request_handler Sample.base Sample.failing_cleanup
       Sample.refuse_version "c1" (inr 3) Sample.initialize Sample.busy
     = @_send_error "c1" (inr 3) (problem_handling_request Sample.initialize) w1
  /\ map sent_payload
       (send_calls
          (after (@_execute_request_handler Sample.base Sample.failing_cleanup
                    Sample.refuse_version "c1" (inr 3) Sample.initialize) Sample.busy))
     = [ to_wire (JSONRPCError Sample.mismatch (inr 3));
         internal_error_frame (inr 3) Sample.initialize ].
Proof.
  intros w1.
  assert (Hfails : @ExecutionFails Sample.base Sample.failing_cleanup
            Sample.refuse_version "c1" (inr 3) Sample.initialize Sample.busy
            (RuntimeError "cleanup failed") w1).
  { apply (@cleanup_fails Sample.base Sample.failing_cleanup
             Sample.refuse_version "c1" (inr 3) Sample.initialize Sample.busy
             (RuntimeError "cleanup failed") w1 Sample.mismatch); reflexivity. }
  destruct (any_execution_failure_answers_internal_error
              (protocol_base:=Sample.base) (client_manager:=Sample.failing_cleanup)
              Sample.refuse_version "c1" (inr 3) Sample.initialize Sample.busy
              (RuntimeError "cleanup failed") w1 Hfails eq_refl) as (Heq & Hcalls & _).
  split; [exact Hfails|]. split; [reflexivity|]. split; [exact Heq|].
  rewrite Hcalls. vm_compute. reflexivity.
Defined.

(** C5, the claim as stated, fails: the handler of request 3 of ["c1"]
    returns the version-mismatch error and the transport refuses the error
    response.  The coordinator goes on to the INTERNAL_ERROR response and
    does not tear the client down: ["c1"] is still registered and its
    inbound table still holds request 1. *)
Lemma refused_error_response_keeps_client :
  let w := set_transport [] [Some (ConnectionError "Network connection lost")] Sample.busy in
  let w' := after (@_execute_request_handler Sample.base Sample.manager
                     Sample.refuse_version "c1" (inr 3) Sample.initialize) w in
  Sample.refuse_version "c1" Sample.initialize = Ok (inr Sample.mismatch)
  /\ code Sample.mismatch = @PROTOCOL_VERSION_MISMATCH Sample.base
  /\ send_calls w'
     = [ mkSendCall "c1" (to_wire (JSONRPCError Sample.mismatch (inr 3)))
           (Some (ConnectionError "Network connection lost"));
         mkSendCall "c1" (internal_error_frame (inr 3) Sample.initialize) None ]
  /\ clients w' = clients w
  /\ inbound_entry w' "c1" (inr 1) = Some (Sample.ping, 0%nat)
  /\ ~ (clients w' !! "c1" = None).
Proof.
  intros w w'.
  assert (Hclients : clients w' = clients w) by reflexivity.
  assert (Hentry : inbound_entry w' "c1" (inr 1) = Some (Sample.ping, 0%nat))
    by (vm_compute; reflexivity).
  split; [reflexivity|]. split; [reflexivity|]. split; [reflexivity|].
  split; [exact Hclients|]. split; [exact Hentry|].
  intros Hgone. unfold inbound_entry in Hentry. rewrite Hgone in Hentry. discriminate.
Qed.

(** C5 as the code has it, at work: the handler of request 3 of ["c1"]
    returns the version-mismatch error; the transport accepts the response,
    and the client is gone. *)
Lemma version_mismatch_witness :
  Sample.refuse_version "c1" Sample.initialize = Ok (inr Sample.mismatch)
  /\ next_send Sample.busy = None
  /\ is_Some (clients Sample.busy !! "c1")
  /\ code Sample.mismatch = @PROTOCOL_VERSION_MISMATCH Sample.base
  /\ @_execute_request_handler Sample.base Sample.failing_cleanup
       Sample.refuse_version "c1" (inr 3) Sample.initialize Sample.busy
     = try_except (@cleanup_client Sample.failing_cleanup "c1") is_Exception
         (fun _ => _send_error "c1" (inr 3) (problem_handling_request Sample.initialize))
         (sent "c1" (to_wire (JSONRPCError Sample.mismatch (inr 3))) Sample.busy)
  /\ clients
       (after (@_execute_request_handler Sample.base Sample.manager
                 Sample.refuse_version "c1" (inr 3) Sample.initialize) Sample.busy)
       !! "c1" = None.
Proof.
  destruct (error_result_disconnects_iff_version_mismatch
              (protocol_base:=Sample.base) Sample.cancellation
              Sample.refuse_version "c1" (inr 3) Sample.initialize Sample.mismatch
              Sample.busy eq_refl eq_refl) as (_ & _ & Hany & _ & _ & _ & _ & Hiff).
  assert (Hreg : is_Some (clients Sample.busy !! "c1")) by (vm_compute; eauto).
  split; [reflexivity|]. split; [reflexivity|]. split; [exact Hreg|].
  split; [reflexivity|]. split; [exact (Hany eq_refl Sample.failing_cleanup)|].
  apply (Hiff Hreg). reflexivity.
Defined.

(** C4, the claim as stated, fails: the handler registered for
    [notifications/progress] raises when the event loop gives its task its
    turn.  No clause of the coordinator catches the exception, which is kept
    by the task, and nothing is printed. *)
Lemma notification_exception_not_logged :
  let w := Sample.run_sample
             [ev_register_notification_handler "notifications/progress"
                Sample.boom_notification;
              ev_client_message (Sample.notification_from_c1 "notifications/progress")]
             Sample.serving in
  let w' := Sample.run_sample [ev_task_step 0] w in
  Sample.boom_notification "c1" Sample.progress = Raise (ValueError "boom")
  /\ task_state <$> tasks w !! 0%nat = Some TaskPending
  /\ task_state <$> tasks w' !! 0%nat = Some (TaskFailed (ValueError "boom"))
  /\ stdout w' = []
  /\ ~ (exists line, line ∈ stdout w').
Proof.
  intros w w'.
  assert (Hout : stdout w' = []) by (vm_compute; reflexivity).
  split; [reflexivity|]. split; [vm_compute; reflexivity|].
  split; [vm_compute; reflexivity|]. split; [exact Hout|].
  intros (line & Hline). rewrite Hout in Hline. by apply not_elem_of_nil in Hline.
Qed.

(** C4 as the code has it, at work on the same notification. *)
Lemma notification_exception_witness :
  let w := Sample.run_sample
             [ev_register_notification_handler "notifications/progress"
                Sample.boom_notification;
              ev_client_message (Sample.notification_from_c1 "notifications/progress")]
             Sample.serving in
  tasks w !! 0%nat
    = Some (mkTask (notification_handler_coro Sample.boom_notification "c1" Sample.progress)
                   TaskPending [])
  /\ send_calls w = []
  /\ send_calls (after (@task_step Sample.base Sample.manager 0) w) = []
  /\ stdout (after (@task_step Sample.base Sample.manager 0) w) = []
  /\ tasks (after (@task_step Sample.base Sample.manager 0) w) !! 0%nat
     = Some (mkTask (notification_handler_coro Sample.boom_notification "c1" Sample.progress)
                    (TaskFailed (ValueError "boom")) []).
Proof.
  intros w.
  destruct (notification_never_answers
              (protocol_base:=Sample.base) (parser:=Sample.parser) Sample.cancellation
              "c1" (JObj []) w) as (_ & _ & _ & Htask).
  destruct (Htask 0%nat Sample.boom_notification "c1" Sample.progress TaskPending []
              ltac:(vm_compute; reflexivity)) as (_ & Hcalls & Hout & Hraises).
  split; [vm_compute; reflexivity|]. split; [vm_compute; reflexivity|].
  split; [exact Hcalls|]. split; [exact Hout|].
  exact (Hraises (ValueError "boom") eq_refl eq_refl eq_refl).
Defined.

(** ** The initialize handshake is sent once *)

Module ClientSessionFacts.

Import ClientSession.

Section Initialize.

Variable PROTOCOL_VERSION : string.
Variable initialize_params : option json.
Variable request_id : string.

#[local] Abbreviation initialize := (initialize initialize_params request_id).
#[local] Abbreviation session_run :=
  (session_run PROTOCOL_VERSION initialize_params request_id).

Lemma session_run_app evs1 evs2 s :
  session_run (evs1 ++ evs2) s = session_run evs2 (session_run evs1 s).
Proof. apply foldl_app. Qed.

(** Calls that find the handshake in flight attach to the handle. *)
Lemma calls_in_flight callers waiters pending sent_messages results :
  session_run (map calls_initialize callers)
    (mkSession (InFlight waiters) pending sent_messages results)
  = mkSession (InFlight (waiters ++ callers)) pending sent_messages results.
Proof.
  revert waiters. induction callers as [|c callers IH]; intros waiters.
  - by rewrite app_nil_r.
  - cbn. unfold session_run in IH. cbn in IH. rewrite IH.
    by rewrite <- app_assoc.
Qed.

(** Calls that find the cached result return it. *)
Lemma calls_when_done callers result pending sent_messages results :
  session_run (map calls_initialize callers)
    (mkSession (Done result) pending sent_messages results)
  = mkSession (Done result) pending sent_messages
      (results ++ map (fun caller => (caller, Ok result)) callers).
Proof.
  revert results. induction callers as [|c callers IH]; intros results.
  - by rewrite app_nil_r.
  - cbn. unfold session_run in IH. cbn in IH. rewrite IH.
    by rewrite <- app_assoc.
Qed.

(** C7. A first call of [initialize()], any number of calls made while its
    request is pending, the server's result with the client's protocol
    version, and any number of calls made afterwards: the session has sent
    the [initialize] request and the [initialized] notification and nothing
    else, so exactly one frame on the wire is an [initialize] request; every
    call has returned, each with the same result, the one that is cached;
    and no request is left pending. *)
Theorem initialize_sends_once first concurrent result later :
  protocol_version_matches PROTOCOL_VERSION result = true ->
  let s := session_run
             (calls_initialize first :: map calls_initialize concurrent
                ++ [response_arrives result] ++ map calls_initialize later)
             new_session in
  client_sent_messages s
    = [initialize_request initialize_params request_id; initialized_notification]
  /\ length (filter (fun frame => is_initialize_request frame = true)
                    (client_sent_messages s)) = 1%nat
  /\ init_state s = Done result
  /\ returned s = map (fun caller => (caller, Ok result)) (first :: concurrent ++ later)
  /\ _pending_requests s = [].
Proof.
  intros Hversion s.
  assert (Hs : s = mkSession (Done result) []
                     [initialize_request initialize_params request_id;
                      initialized_notification]
                     (map (fun caller => (caller, Ok result))
                          (first :: concurrent ++ later))).
  { subst s. change (calls_initialize first :: ?l) with ([calls_initialize first] ++ l).
    rewrite !session_run_app. cbn [ClientSession.session_run foldl session_step].
    unfold ClientSession.initialize at 1. cbn [init_state new_session].
    rewrite calls_in_flight.
    cbn [ClientSession.session_run foldl session_step].
    unfold on_response. cbn [init_state]. rewrite Hversion.
    rewrite calls_when_done. cbn [client_sent_messages returned app].
    f_equal. cbn [map app]. by rewrite map_app. }
  rewrite Hs. cbn [client_sent_messages init_state returned _pending_requests].
  repeat split.
Qed.

End Initialize.

(** C7 at work: three concurrent calls and two later ones. *)
Lemma initialize_witness :
  let result :=
    {| r_value := JObj [("protocolVersion", JStr "2025-03-26");
                        ("capabilities", JObj [("logging", JObj [])]);
                        ("serverInfo", JObj [("name", JStr "test-server");
                                            ("version", JStr "1.0.0")])] |} in
  let s := session_run "2025-03-26" None "0"
             [calls_initialize 1; calls_initialize 2; calls_initialize 3;
              response_arrives result; calls_initialize 4; calls_initialize 5]
             new_session in
  protocol_version_matches "2025-03-26" result = true
  /\ client_sent_messages s
     = [ JObj [("jsonrpc", JStr "2.0"); ("id", JStr "0"); ("method", JStr "initialize")];
         JObj [("jsonrpc", JStr "2.0"); ("method", JStr "notifications/initialized")] ]
  /\ returned s = [(1, Ok result); (2, Ok result); (3, Ok result);
                   (4, Ok result); (5, Ok result)]%nat.
Proof.
  intros result s.
  destruct (initialize_sends_once "2025-03-26" None "0" 1%nat [2; 3]%nat result [4; 5]%nat
              eq_refl) as (Hsent & _ & _ & Hreturned & _).
  split; [reflexivity|]. split; [exact Hsent|exact Hreturned].
Defined.

End ClientSessionFacts.

(** ** More of the coordinator at work *)

(** X1 at work: an unknown method, a request, its duplicate and an unknown
    notification, on a transport that refuses the first answer. *)
Lemma message_loop_survives_witness :
  let messages := [Sample.request_from_c1 7 "does/not/exist";
                   Sample.request_from_c1 1 "ping";
                   Sample.request_from_c1 1 "ping";
                   Sample.notification_from_c1 "notifications/unheard"] in
  polite Scenario.flaky
  /\ fst (@_message_loop_over Sample.parser Sample.manager (map Yield messages)
            Scenario.flaky) = Ok tt
  /\ length (stdout (after (@_message_loop_over Sample.parser Sample.manager
                              (map Yield messages)) Scenario.flaky)) = 2%nat.
Proof.
  intros messages.
  assert (Hpolite : polite Scenario.flaky).
  { unfold polite. cbn. apply Forall_singleton. intros e He. by simplify_eq. }
  destruct (message_loop_survives_messages (parser:=Sample.parser) Sample.cancellation
              messages Scenario.flaky Hpolite) as (Hok & _ & _).
  split; [exact Hpolite|]. split; [exact Hok|]. vm_compute. reflexivity.
Defined.

(** X2 at work: the stream fails after the first request; the second one is
    never handled. *)
Lemma stream_failure_witness :
  let items := [Yield (Sample.request_from_c1 1 "ping");
                StreamRaises (ConnectionError "Network connection lost");
                Yield (Sample.request_from_c1 2 "ping")] in
  polite Sample.serving
  /\ fst (@_message_loop Sample.parser Sample.manager items Sample.serving) = Ok tt
  /\ stdout (after (@_message_loop Sample.parser Sample.manager items) Sample.serving)
     = [Transport_error (ConnectionError "Network connection lost")]
  /\ length (tasks (after (@_message_loop Sample.parser Sample.manager items)
                          Sample.serving)) = 1%nat.
Proof.
  intros items.
  assert (Hpolite : polite Sample.serving) by apply Forall_nil_2.
  pose proof (stream_failure_ends_message_loop (parser:=Sample.parser) Sample.cancellation
                [Sample.request_from_c1 1 "ping"]
                (ConnectionError "Network connection lost")
                [Yield (Sample.request_from_c1 2 "ping")]
                Sample.serving Hpolite eq_refl) as Heq.
  cbv zeta in Heq. cbn [map app] in Heq.
  split; [exact Hpolite|]. unfold after. subst items.
  change (@_message_loop Sample.parser Sample.manager)
    with (@_message_loop Sample.parser (spec_manager Sample.cancellation)).
  rewrite Heq. cbn [fst snd]. split; [reflexivity|].
  split; vm_compute; reflexivity.
Defined.

(** X3 at work: a request for [tools/list], which the parser knows and no
    handler serves. *)
Lemma undispatchable_request_witness :
  let message := Sample.request_from_c1 7 "tools/list" in
  let error := {| code := -32601;
                  message := "No handler for method: tools/list";
                  data := None |} in
  @refusal Sample.parser Sample.serving (cm_payload message) = Some error
  /\ send_calls (after (@_message_loop_iteration Sample.parser Sample.manager message)
                       Sample.serving)
     = [mkSendCall "c1"
          (JObj [("jsonrpc", JStr "2.0"); ("id", JNum 7);
                 ("error", JObj [("code", JNum (-32601));
                                 ("message", JStr "No handler for method: tools/list")])])
          None]
  /\ tasks (after (@_message_loop_iteration Sample.parser Sample.manager message)
                  Sample.serving) = [].
Proof.
  intros message error.
  assert (Hrefusal : @refusal Sample.parser Sample.serving (cm_payload message) = Some error)
    by (vm_compute; reflexivity).
  destruct (undispatchable_request_is_refused (parser:=Sample.parser) Sample.cancellation
              "c1" (cm_payload message) (inr 7) error Sample.serving
              eq_refl eq_refl Hrefusal) as (Hcalls & Htasks & _).
  split; [exact Hrefusal|]. split; [exact Hcalls|exact Htasks].
Defined.

(** X4 at work: request 1 of ["c1"] is accepted. *)
Lemma dispatched_request_witness :
  let message := Sample.request_from_c1 1 "ping" in
  inbound_entry Sample.serving "c1" (inr 1) = None
  /\ inbound_entry (after (@_message_loop_iteration Sample.parser Sample.manager message)
                          Sample.serving) "c1" (inr 1)
     = Some (Sample.ping, 0%nat)
  /\ send_calls (after (@_message_loop_iteration Sample.parser Sample.manager message)
                       Sample.serving) = [].
Proof.
  intros message.
  destruct (dispatched_request_is_tracked (parser:=Sample.parser) Sample.cancellation
              "c1" (cm_payload message) (inr 1) Sample.ping Sample.pong Sample.serving
              eq_refl eq_refl eq_refl eq_refl eq_refl)
    as (_ & _ & Hentry & _ & _ & Hcalls & _).
  split; [reflexivity|]. split; [exact Hentry|exact Hcalls].
Defined.

(** X5 at work: the task of request 1 runs. *)
Lemma handler_task_witness :
  tasks Sample.busy !! 0%nat
    = Some (mkTask (execute_request_handler_coro Sample.pong "c1" (inr 1) Sample.ping)
                   TaskPending [untrack_callback "c1" (inr 1)])
  /\ inbound_entry Sample.busy "c1" (inr 1) = Some (Sample.ping, 0%nat)
  /\ inbound_entry (after (@run_task Sample.base Sample.manager 0) Sample.busy) "c1" (inr 1)
     = None
  /\ send_calls (after (@run_task Sample.base Sample.manager 0) Sample.busy)
     = [mkSendCall "c1"
          (JObj [("jsonrpc", JStr "2.0"); ("id", JNum 1); ("result", JObj [])]) None].
Proof.
  assert (Htask : tasks Sample.busy !! 0%nat
    = Some (mkTask (execute_request_handler_coro Sample.pong "c1" (inr 1) Sample.ping)
                   TaskPending [untrack_callback "c1" (inr 1)]))
    by (vm_compute; reflexivity).
  destruct (handler_task_answers_and_untracks (protocol_base:=Sample.base)
              Sample.cancellation 0%nat Sample.pong "c1" (inr 1) Sample.ping
              [untrack_callback "c1" (inr 1)] Sample.busy Htask)
    as (Hgone & _ & Hresult).
  { by apply list_elem_of_singleton. }
  destruct (Hresult {| r_value := JObj [] |} eq_refl eq_refl) as (Hcalls & _).
  split; [exact Htask|]. split; [vm_compute; reflexivity|].
  split; [exact Hgone|exact Hcalls].
Defined.

(** X6 at work: request 1 is cancelled before its task ran. *)
Lemma cancelled_request_witness :
  let w1 := after (@cancel_request_from_client Sample.manager "c1" (inr 1)) Sample.busy in
  inbound_entry Sample.busy "c1" (inr 1) = Some (Sample.ping, 0%nat)
  /\ fst (@cancel_request_from_client Sample.manager "c1" (inr 1) Sample.busy) = Ok true
  /\ fst (@cancel_request_from_client Sample.manager "c1" (inr 1) w1) = Ok false
  /\ send_calls (after (@run_task Sample.base Sample.manager 0) w1) = [].
Proof.
  intros w1.
  assert (Hentry : inbound_entry Sample.busy "c1" (inr 1) = Some (Sample.ping, 0%nat))
    by (vm_compute; reflexivity).
  destruct (cancelled_request_never_answers (protocol_base:=Sample.base)
              Sample.cancellation "c1" (inr 1) Sample.ping 0%nat
              (execute_request_handler_coro Sample.pong "c1" (inr 1) Sample.ping)
              [untrack_callback "c1" (inr 1)] Sample.busy Hentry
              ltac:(vm_compute; reflexivity))
    as (Htrue & _ & _ & _ & Hfalse & _ & Hcalls & _).
  split; [exact Hentry|]. split; [exact Htrue|].
  split; [exact (f_equal fst Hfalse)|exact Hcalls].
Defined.

(** X7 at work: a response to a request that was never sent. *)
Lemma unmatched_response_witness :
  outbound_entry Sample.serving "c1" (inl "u-9") = None
  /\ @_message_loop_iteration Sample.parser Sample.manager
       (Scenario.response_from_c1 "u-9") Sample.serving
     = (Ok tt,
        set_stdout [No_pending_request_for_client (inl "u-9") "c1"] Sample.serving).
Proof.
  split; [reflexivity|].
  exact (unmatched_response_is_dropped (parser:=Sample.parser) Sample.cancellation
           "c1" (cm_payload (Scenario.response_from_c1 "u-9")) (inl "u-9") Sample.serving
           eq_refl eq_refl eq_refl eq_refl eq_refl).
Defined.

(** X8 at work: client ["c1"] answers the ping ["u-1"] while the caller
    waits. *)
Lemma response_round_trip_witness :
  let delivered :=
    after (@_message_loop_iteration Sample.parser Sample.manager
             (Scenario.response_from_c1 "u-1")) in
  running Sample.serving = true
  /\ fst (@send_request Sample.manager "c1" Sample.ping "u-1" delivered TimerFired
                        Sample.serving)
     = Ok (inl {| r_value := JObj [("roots", JList [])] |})
  /\ outbound_entry
       (after (@send_request Sample.manager "c1" Sample.ping "u-1" delivered TimerFired)
              Sample.serving) "c1" (inl "u-1") = None.
Proof.
  intros delivered.
  destruct (response_resolves_send_request (parser:=Sample.parser) Sample.cancellation
              "c1" Sample.ping "u-1" (cm_payload (Scenario.response_from_c1 "u-1"))
              TimerFired Sample.serving eq_refl eq_refl eq_refl eq_refl eq_refl eq_refl)
    as (Hresult & _ & Hgone & _).
  split; [reflexivity|]. split; [exact Hresult|exact Hgone].
Defined.

(** X14 at work: [boom] and then [pong] are registered for ["ping"]. *)
Lemma last_registered_handler_witness :
  let w := Sample.run_sample [ev_start] (initial_world []) in
  let w' := after (register_request_handler "ping" Sample.pong)
                  (after (register_request_handler "ping" Sample.boom) w) in
  inbound_entry w "c1" (inr 1) = None
  /\ tasks (after (@_message_loop_iteration Sample.parser Sample.manager
                     (Sample.request_from_c1 1 "ping")) w')
     = [mkTask (execute_request_handler_coro Sample.pong "c1" (inr 1) Sample.ping)
               TaskPending [untrack_callback "c1" (inr 1)]].
Proof.
  intros w w'.
  destruct (last_registered_handler_is_dispatched (parser:=Sample.parser)
              Sample.cancellation "ping" Sample.boom Sample.pong "c1"
              (cm_payload (Sample.request_from_c1 1 "ping")) (inr 1) Sample.ping w
              eq_refl eq_refl eq_refl eq_refl eq_refl) as (Htasks & _).
  split; [reflexivity|exact Htasks].
Defined.

(** X15 at work: a progress notification of ["c1"], which is not a client
    yet. *)
Lemma notification_delivery_witness :
  let message := Sample.notification_from_c1 "notifications/progress" in
  let coro := notification_handler_coro Scenario.quiet_notification "c1" Sample.progress in
  let w1 := set_tasks [mkTask coro TaskPending []] Scenario.listening in
  let w2 := set_tasks [mkTask coro TaskFinished []] Scenario.listening in
  clients Scenario.listening !! "c1" = None
  /\ @_message_loop_iteration Sample.parser Sample.manager message Scenario.listening
     = (Ok tt, w1)
  /\ @run_task Sample.base Sample.manager 0 w1 = (Ok tt, w2)
  /\ clients w2 !! "c1" = None
  /\ send_calls w2 = [].
Proof.
  intros message coro w1 w2.
  destruct (notification_reaches_its_handler (protocol_base:=Sample.base)
              (parser:=Sample.parser) Sample.cancellation "c1" (cm_payload message)
              "notifications/progress" Sample.progress Scenario.quiet_notification
              Scenario.listening eq_refl eq_refl eq_refl eq_refl eq_refl)
    as (Hiter & Hrun).
  destruct (Hrun eq_refl) as (Hrun1 & _).
  split; [reflexivity|]. split; [exact Hiter|]. split; [exact Hrun1|].
  split; reflexivity.
Defined.

(** X13 at work: the task of request 1 has ended and the event loop has not
    yet called its done-callback.  The entry is still in the table, covered
    by the callback in the queue; the call of the callback removes it. *)
Lemma inbound_entries_witness :
  let w := Sample.run_sample [ev_task_step 0] Sample.busy in
  inbound_covered w
  /\ inbound_entry w "c1" (inr 1) = Some (Sample.ping, 0%nat)
  /\ task_state <$> tasks w !! 0%nat = Some TaskFinished
  /\ ready w = [task_done_callback (untrack_callback "c1" (inr 1))]
  /\ inbound_entry (Sample.run_sample [ev_run_next_ready] w) "c1" (inr 1) = None.
Proof.
  intros w.
  destruct (inbound_entries_are_covered (protocol_base:=Sample.base) (parser:=Sample.parser)
              Sample.cancellation) as (_ & _ & _ & _ & _ & Hrun & _).
  split.
  - exact (Hrun [ev_start; ev_register_request_handler "ping" Sample.pong;
                 ev_client_message (Sample.request_from_c1 1 "ping"); ev_task_step 0] []).
  - split; [vm_compute; reflexivity|]. split; [vm_compute; reflexivity|].
    split; vm_compute; reflexivity.
Defined.
